(** * Accident data preparation: enrichment, derivation and per-accident rollups

    A shallow embedding of [prepare_data.py]: the code dictionary and the
    column enrichment, the time-of-day and age derivations, the grouping of
    the persons table, the left merges that build the accident-grain table,
    and the severity score and class computed on it.

    Conventions.
    - A pandas cell that may be missing is an [option]; [None] is NaN/None.
    - Integer-valued columns hold [Z].  The two float results of the
      aggregation (a ratio and a mean) are exact rationals [Q]: rounding of
      the binary floating-point division is not modelled.
    - A table is the list of its rows, in row order.  The generic frame that
      [enrichir_colonne] works on is a finite map from column names to
      columns, since that function addresses columns by computed names.
    - [df_accident] is the accident-grain table of a run of [main] that gets
      as far as writing it.  The contents of the tables can make [main] raise
      before that; [main_aboutit] collects the conditions under which they
      do not, and the counterexamples are given on tables that satisfy it. *)

From Stdlib Require Import ZArith QArith Ascii Lia.
From stdpp Require Import gmap strings list sorting.

Local Open Scope string_scope.
Local Open Scope Z_scope.
Local Open Scope list_scope.

(** ** Cells *)

(** A raw cell as read from a delimited file: missing, a number, or text. *)
Inductive valeur : Type :=
  | NaN
  | Entier (z : Z)
  | Texte (s : string).

#[global] Instance valeur_eq_dec : EqDecision valeur.
Proof. solve_decision. Defined.

(** The fixed label for an unmapped or missing code. *)
Definition NON_RENSEIGNE : string := "Non renseigné".

(** ** Code dictionary *)

Definition MAPPINGS : list (string * list (Z * string)) :=
  [ ("lum",
     [ (1, "Plein jour");
       (2, "Crépuscule ou aube");
       (3, "Nuit sans éclairage public");
       (4, "Nuit avec éclairage public non allumé");
       (5, "Nuit avec éclairage public allumé") ]);
    ("atm",
     [ ((-1), "Non renseigné");
       (1, "Normale");
       (2, "Pluie légère");
       (3, "Pluie forte");
       (4, "Neige - grêle");
       (5, "Brouillard - fumée");
       (6, "Vent fort - tempête");
       (7, "Temps éblouissant");
       (8, "Temps couvert");
       (9, "Autre") ]);
    ("col",
     [ ((-1), "Non renseigné");
       (1, "Deux véhicules - frontale");
       (2, "Deux véhicules - par l'arrière");
       (3, "Deux véhicules - par le côté");
       (4, "Trois véhicules et plus - en chaîne");
       (5, "Trois véhicules et plus - collisions multiples");
       (6, "Autre collision");
       (7, "Sans collision") ]);
    ("agg",
     [ (1, "Hors agglomération");
       (2, "En agglomération") ]);
    ("int",
     [ ((-1), "Non renseigné");
       (1, "Hors intersection");
       (2, "Intersection en X");
       (3, "Intersection en T");
       (4, "Intersection en Y");
       (5, "Intersection à plus de 4 branches");
       (6, "Giratoire");
       (7, "Place");
       (8, "Passage à niveau");
       (9, "Autre intersection") ]);
    ("catr",
     [ (1, "Autoroute");
       (2, "Route nationale");
       (3, "Route départementale");
       (4, "Voie communale");
       (5, "Hors réseau public");
       (6, "Parc de stationnement ouvert à la circulation publique");
       (9, "Autre") ]);
    ("circ",
     [ ((-1), "Non renseigné");
       (1, "À sens unique");
       (2, "Bidirectionnelle");
       (3, "À chaussées séparées");
       (4, "Avec voies d'affectation variable") ]);
    ("surf",
     [ ((-1), "Non renseigné");
       (1, "Normale");
       (2, "Mouillée");
       (3, "Flaques");
       (4, "Inondée");
       (5, "Enneigée");
       (6, "Boue");
       (7, "Verglacée");
       (8, "Corps gras - huile");
       (9, "Autre") ]);
    ("plan",
     [ ((-1), "Non renseigné");
       (1, "Partie rectiligne");
       (2, "En courbe à gauche");
       (3, "En courbe à droite");
       (4, "En S") ]);
    ("prof",
     [ ((-1), "Non renseigné");
       (1, "Plat");
       (2, "Pente");
       (3, "Sommet de côte");
       (4, "Bas de côte") ]);
    ("catv",
     [ (0, "Indéterminable");
       (1, "Bicyclette");
       (2, "Cyclomoteur <50cm3");
       (3, "Voiturette (Quadricycle à moteur carrossé)");
       (4, "Scooter immatriculé");
       (5, "Motocyclette");
       (6, "Side-car");
       (7, "VL seul");
       (8, "VL + caravane");
       (9, "VL + remorque");
       (10, "VU seul (1,5T <= PTAC <= 3,5T)");
       (11, "VU (10) + caravane");
       (12, "VU (10) + remorque");
       (13, "PL seul (3,5T <PTCA <= 7,5T)");
       (14, "PL seul (> 7,5T)");
       (15, "PL (13) + remorque");
       (16, "PL (14) + remorque");
       (17, "PL > 7,5T + semi-remorque");
       (18, "Transport en commun");
       (19, "Tramway");
       (20, "Tracteur agricole");
       (21, "Véhicule ou engin spécial");
       (30, "Scooter < 50 cm3");
       (31, "Motocyclette > 50 cm3 et <= 125 cm3");
       (32, "Scooter > 50 cm3 et <= 125 cm3");
       (33, "Motocyclette > 125 cm3");
       (34, "Scooter > 125 cm3");
       (35, "Quad léger <= 50 cm3 (Quadricycle à moteur non carrossé)");
       (36, "Quad lourd > 50 cm3 (Quadricycle à moteur non carrossé)");
       (37, "Autobus");
       (38, "Autocar");
       (39, "Train");
       (40, "Tramway");
       (41, "Cyclomobilette légère");
       (42, "3RL <= 50 cm3");
       (43, "3RL > 50 cm3 <= 125 cm3");
       (50, "EDP à moteur");
       (60, "EDP sans moteur");
       (80, "VAE");
       (99, "Autre véhicule") ]);
    ("obs",
     [ ((-1), "Non renseigné");
       (0, "Sans obstacle");
       (1, "Véhicule en stationnement");
       (2, "Arbre");
       (3, "Glissière métallique");
       (4, "Glissière béton");
       (5, "Autre glissière");
       (6, "Bâtiment, mur, pile de pont");
       (7, "Support de signalisation verticale ou poste d'appel d'urgence");
       (8, "Poteau");
       (9, "Mobilier urbain");
       (10, "Parapet");
       (11, "Îlot, refuge, borne haute");
       (12, "Bordure de trottoir");
       (13, "Fossé, talus, paroi rocheuse");
       (14, "Autre obstacle fixe sur chaussée");
       (15, "Autre obstacle fixe sur trottoir ou accotement");
       (16, "Sortie de chaussée sans obstacle");
       (17, "Buse - tête d'aqueduc") ]);
    ("choc",
     [ ((-1), "Non renseigné");
       (0, "Aucun");
       (1, "Avant");
       (2, "Avant droit");
       (3, "Avant gauche");
       (4, "Arrière");
       (5, "Arrière droit");
       (6, "Arrière gauche");
       (7, "Côté droit");
       (8, "Côté gauche");
       (9, "Chocs multiples (tonneaux)") ]);
    ("manv",
     [ ((-1), "Non renseigné");
       (0, "Sans changement de direction");
       (1, "Même sens, même file");
       (2, "Entre 2 files");
       (3, "En marche arrière");
       (4, "À contresens");
       (5, "En franchissant le terre-plein central");
       (6, "En changeant de file à gauche");
       (7, "En changeant de file à droite");
       (8, "En déportant à gauche");
       (9, "En déportant à droite");
       (10, "En tournant à gauche");
       (11, "En tournant à droite");
       (12, "En faisant demi-tour sur la chaussée");
       (13, "En sortant du stationnement");
       (14, "En entrant en stationnement");
       (15, "En s'insérant");
       (16, "En traversant la chaussée");
       (17, "Manœuvre de stationnement");
       (18, "Manœuvre d'évitement");
       (19, "Ouverture de porte");
       (20, "Arrêté (hors stationnement)");
       (21, "En stationnement (avec occupants)");
       (22, "Circulant sur trottoir");
       (23, "Autres manœuvres") ]);
    ("catu",
     [ (1, "Conducteur");
       (2, "Passager");
       (3, "Piéton");
       (4, "Piéton en roller ou en trottinette") ]);
    ("grav",
     [ (1, "Indemne");
       (2, "Tué");
       (3, "Blessé hospitalisé");
       (4, "Blessé léger") ]);
    ("sexe",
     [ ((-1), "Non renseigné");
       (1, "Masculin");
       (2, "Féminin") ]);
    ("trajet",
     [ ((-1), "Non renseigné");
       (0, "Non renseigné");
       (1, "Domicile - travail");
       (2, "Domicile - école");
       (3, "Courses - achats");
       (4, "Utilisation professionnelle");
       (5, "Promenade - loisirs");
       (9, "Autre") ]);
    ("secu1",
     [ ((-1), "Non renseigné");
       (0, "Aucun équipement");
       (1, "Ceinture");
       (2, "Casque");
       (3, "Dispositif enfants");
       (4, "Gilet réfléchissant");
       (5, "Airbag (2RM/3RM)");
       (6, "Gants (2RM/3RM)");
       (7, "Gants + Airbag (2RM/3RM)");
       (8, "Non déterminable");
       (9, "Autre") ]);
    ("locp",
     [ ((-1), "Non renseigné");
       (0, "Sans objet ou non renseigné");
       (1, "Sur chaussée");
       (2, "Sur bande d'arrêt d'urgence");
       (3, "Sur accotement");
       (4, "Sur trottoir");
       (5, "Sur piste cyclable");
       (6, "Sur autre voie");
       (8, "Autre") ]);
    ("actp",
     [ ((-1), "Non renseigné");
       (0, "Non renseigné ou sans objet");
       (1, "Sens marche du piéton");
       (2, "Sens inverse de marche du piéton");
       (3, "Traversant");
       (4, "Masqué");
       (5, "Jouant - courant");
       (6, "Avec animal");
       (9, "Autre") ]);
    ("etatp",
     [ ((-1), "Non renseigné");
       (0, "Sans objet");
       (1, "Seul");
       (2, "Accompagné");
       (3, "En groupe") ]);
    ("senc",
     [ ((-1), "Non renseigné");
       (1, "Sens croissant");
       (2, "Sens décroissant") ]);
    ("motor",
     [ ((-1), "Non renseigné");
       (1, "Avant collision");
       (2, "Après collision") ]) ]%Z.

(** A Python dict with integer keys, written as its item list.  [dict_get]
    is [d.get(k)]; a literal with a repeated key would keep the last item,
    and [MAPPINGS_keys_NoDup] below shows that no table repeats a key. *)
Fixpoint dict_get (d : list (Z * string)) (k : Z) : option string :=
  match d with
  | [] => None
  | (k', v) :: d' => if decide (k' = k) then Some v else dict_get d' k
  end.

(** [Series.map(mapping)] on one cell: a missing cell stays missing, a
    number is looked up, and text never equals an integer key. *)
Definition map_cell (mapping : list (Z * string)) (v : valeur) : option string :=
  match v with
  | Entier z => dict_get mapping z
  | NaN | Texte _ => None
  end.

(** [.fillna(x)] on one cell. *)
Definition fillna {A} (x : A) (c : option A) : A := default x c.

(** The label cell written into the [_desc] column. *)
Definition desc_cell (mapping : list (Z * string)) (v : valeur) : valeur :=
  Texte (fillna NON_RENSEIGNE (map_cell mapping v)).

(** A frame: column name to column.  Assigning [df[name] = column] is an
    insertion, which replaces a column of that name if there is one. *)
Abbreviation DataFrame := (gmap string (list valeur)).

Definition enrichir_colonne (df : DataFrame) (colonne : string)
    (mapping : list (Z * string)) : DataFrame :=
  match df !! colonne with
  | Some c =>
      <[colonne +:+ "_desc" := desc_cell mapping <$> c]>
        (<[colonne +:+ "_code" := c]> df)
  | None => df
  end.

(** [for col, mapping in MAPPINGS.items(): df = enrichir_colonne(df, col, mapping)] *)
Definition enrichir_mappings (df : DataFrame) : DataFrame :=
  foldl (λ d cm, enrichir_colonne d cm.1 cm.2) df MAPPINGS.

(** ** Temporal deriver *)

(** [s.split(':')[0]]: the text before the first colon, all of [s] if it
    has none. *)
Fixpoint avant_deux_points (s : string) : string :=
  match s with
  | EmptyString => EmptyString
  | String a s' =>
      if decide (a = ":"%char) then EmptyString
      else String a (avant_deux_points s')
  end.

Section Periode.

(** Python's built-in [int] applied to a [str]: the integer read, or
    [None] where it raises [ValueError].  [int_ascii] below is its
    behaviour on ASCII text. *)
Variable int_py : string → option Z.

(** The [try] block of [determiner_periode_journee]: the only call that
    can raise is [int], and the bare [except] turns that into the
    sentinel. *)
Definition determiner_periode_journee (heure : option string) : string :=
  match heure with
  | None => NON_RENSEIGNE
  | Some s =>
      match int_py (avant_deux_points s) with
      | Some h =>
          if bool_decide (6 ≤ h < 12) then "Matin"
          else if bool_decide (12 ≤ h < 18) then "Après-midi"
          else if bool_decide (18 ≤ h < 22) then "Soirée"
          else "Nuit"
      | None => NON_RENSEIGNE
      end
  end.

End Periode.

(** *** [int] on ASCII text

    Optional blanks, an optional sign, decimal digits in which single
    underscores may separate digits, optional blanks. *)

Definition est_espace (a : ascii) : bool :=
  let n := nat_of_ascii a in
  bool_decide (n = 32 ∨ 9 ≤ n ≤ 13)%nat.

Definition chiffre (a : ascii) : option Z :=
  let n := nat_of_ascii a in
  if bool_decide (48 ≤ n ≤ 57)%nat then Some (Z.of_nat n - 48) else None.

Fixpoint que_des_espaces (s : string) : bool :=
  match s with
  | EmptyString => true
  | String a s' => est_espace a && que_des_espaces s'
  end.

(** [apres_chiffre] tells whether the previous character was a digit: an
    underscore or the end of the number is accepted only then. *)
Fixpoint lire_chiffres (apres_chiffre : bool) (acc : Z) (s : string) : option Z :=
  match s with
  | EmptyString => if apres_chiffre then Some acc else None
  | String a s' =>
      match chiffre a with
      | Some d => lire_chiffres true (10 * acc + d) s'
      | None =>
          if negb apres_chiffre then None
          else if decide (a = "_"%char) then lire_chiffres false acc s'
          else if que_des_espaces s then Some acc
          else None
      end
  end.

Fixpoint sauter_espaces (s : string) : string :=
  match s with
  | String a s' => if est_espace a then sauter_espaces s' else s
  | EmptyString => s
  end.

Definition int_ascii (s : string) : option Z :=
  match sauter_espaces s with
  | String "-" s' => Z.opp <$> lire_chiffres false 0 s'
  | String "+" s' => lire_chiffres false 0 s'
  | s' => lire_chiffres false 0 s'
  end.

(** ** Demographic deriver *)

Definition calculer_age (an_nais : option Z) (an_accident : Z) : option Z :=
  match an_nais with
  | None => None
  | Some a => if decide (a = -1) then None else Some (an_accident - a)
  end.

(** The [age] column: [calculer_age(x)], with the default [an_accident=2024]. *)
Definition age (an_nais : option Z) : option Z := calculer_age an_nais 2024.

(** [bins.searchsorted(x, side='left')] on increasing [bins]: the number
    of leading edges strictly below [x]. *)
Fixpoint searchsorted_left (bins : list Z) (x : Z) : nat :=
  match bins with
  | [] => 0%nat
  | b :: bins' => if decide (b < x) then S (searchsorted_left bins' x) else 0%nat
  end.

(** [pd.cut(x, bins, labels)] with its defaults [right=True] and
    [include_lowest=False]: a value gets the label of slot [ids - 1], and no
    label when it is missing, at or below the first edge, or above the last. *)
Definition cut (bins : list Z) (labels : list string) (x : option Z) : option string :=
  match x with
  | None => None
  | Some v =>
      let ids := searchsorted_left bins v in
      if bool_decide (ids = 0 ∨ ids = length bins)%nat then None
      else labels !! (ids - 1)%nat
  end.

Definition tranche_age : option Z → option string :=
  cut [0; 18; 25; 35; 45; 55; 65; 100]
      ["0-17"; "18-24"; "25-34"; "35-44"; "45-54"; "55-64"; "65+"].

(** ** Raw tables *)

(** One row of each input table, with the columns the pipeline names.
    [Num_Acc] is an integer identifier; an empty field reads as [None]. *)

Record Caract : Type := {
  ca_Num_Acc : option Z;
  ca_jour : option Z;
  ca_mois : option Z;
  ca_an : option Z;
  ca_hrmn : option string;
  ca_lum : valeur;
  ca_agg : valeur;
  ca_int : valeur;
  ca_atm : valeur;
  ca_col : valeur
}.

(** The columns of the location table that the accident-grain table takes. *)
Record Lieu : Type := {
  li_Num_Acc : option Z;
  li_vma : valeur;
  li_nbv : valeur;
  li_catr : valeur;
  li_surf : valeur;
  li_plan : valeur;
  li_prof : valeur;
  li_circ : valeur;
  li_infra : valeur;
  li_situ : valeur
}.

Record Vehicule : Type := {
  ve_Num_Acc : option Z;
  ve_id_vehicule : valeur;
  ve_num_veh : valeur
}.

Record Usager : Type := {
  us_Num_Acc : option Z;
  us_id_usager : valeur;
  us_id_vehicule : valeur;
  us_num_veh : valeur;
  us_grav : option Z;
  us_catu : option Z;
  us_sexe : option Z;
  us_an_nais : option Z
}.

(** ** Grouping and merging *)

Section Tables.

Context {A B : Type}.

(** The rows of key [k], in table order. *)
Definition groupe (cle : A → option Z) (t : list A) (k : Z) : list A :=
  filter (λ r, cle r = Some k) t.

(** [t.groupby('Num_Acc')]: one group per distinct non-missing key, keys
    in increasing order.  Rows with a missing key belong to no group. *)
Definition groupby (cle : A → option Z) (t : list A) : list (Z * list A) :=
  (λ k, (k, groupe cle t k)) <$> merge_sort Z.le (remove_dups (omap cle t)).

(** [left.merge(right, on='Num_Acc', how='left')]: every left row, in
    order, once per right row with an equal key (missing keys are equal to
    each other), and once with no right row when there is none. *)
Definition merge_left (cleA : A → option Z) (cleB : B → option Z)
    (gauche : list A) (droite : list B) : list (A * option B) :=
  gauche ≫= λ a,
    match filter (λ b, cleB b = cleA a) droite with
    | [] => [(a, None)]
    | bs => (λ b, (a, Some b)) <$> bs
    end.

(** [t.drop_duplicates('Num_Acc', keep='first')]; [vues] are the keys
    already met. *)
Fixpoint drop_duplicates_depuis (cle : A → option Z) (vues : list (option Z))
    (t : list A) : list A :=
  match t with
  | [] => []
  | r :: t' =>
      if decide (cle r ∈ vues) then drop_duplicates_depuis cle vues t'
      else r :: drop_duplicates_depuis cle (cle r :: vues) t'
  end.

Definition drop_duplicates (cle : A → option Z) (t : list A) : list A :=
  drop_duplicates_depuis cle [] t.

End Tables.

(** ** Accident aggregator *)

(** [(x == c).sum()] *)
Definition somme_egal (c : Z) (x : list (option Z)) : Z :=
  Z.of_nat (length (filter (λ v, v = Some c) x)).

(** [len(x)] as an integer. *)
Definition len {A} (x : list A) : Z := Z.of_nat (length x).

(** [a / b] on two integers, as an exact rational. *)
Definition division (a b : Z) : Q := (inject_Z a / inject_Z b)%Q.

(** [sum] of a list of integers. *)
Definition somme (l : list Z) : Z := foldr Z.add 0 l.

(** [x.mean()]: the mean of the values present, missing when there is none. *)
Definition mean (x : list (option Z)) : option Q :=
  let vals := omap id x in
  if decide (vals = []) then None
  else Some (division (somme vals) (len vals)).

(** The five reductions of the [agg] call, one per column. *)
Definition agg_grav (x : list (option Z)) : Z * Z * Z * Z :=
  (somme_egal 2 x, somme_egal 3 x, somme_egal 4 x, somme_egal 1 x).

Definition agg_catu (x : list (option Z)) : Z := somme_egal 3 x.

Definition agg_sexe (x : list (option Z)) : Q :=
  if decide (len x > 0) then division (somme_egal 1 x) (len x)
  else 0%Q.

Definition agg_an_nais (x : list (option Z)) : option Q :=
  let valides := filter (λ v, v ≠ Some (-1)) x in
  if decide (len valides > 0) then Qminus (inject_Z 2024) <$> mean valides
  else None.

(** ['count']: the number of cells that are not missing. *)
Definition agg_count (x : list valeur) : Z :=
  Z.of_nat (length (filter (λ v, v ≠ NaN) x)).

(** A row of [stats_usagers] once the tuple column has been split. *)
Record StatsUsagers : Type := {
  su_Num_Acc : Z;
  su_nb_pietons : Z;
  su_pct_hommes : Q;
  su_age_moyen : option Q;
  su_nb_usagers : Z;
  su_nb_tues : Z;
  su_nb_blesses_hospitalises : Z;
  su_nb_blesses_legers : Z;
  su_nb_indemnes : Z
}.

Definition agg_usagers (k : Z) (g : list Usager) : StatsUsagers :=
  let '(tues, hosp, legers, indemnes) := agg_grav (us_grav <$> g) in
  {| su_Num_Acc := k;
     su_nb_pietons := agg_catu (us_catu <$> g);
     su_pct_hommes := agg_sexe (us_sexe <$> g);
     su_age_moyen := agg_an_nais (us_an_nais <$> g);
     su_nb_usagers := agg_count (us_id_usager <$> g);
     su_nb_tues := tues;
     su_nb_blesses_hospitalises := hosp;
     su_nb_blesses_legers := legers;
     su_nb_indemnes := indemnes |}.

(** Lines 388-399, one row per group.  When no person row has a
    [Num_Acc] there is no group, and the assignment of the four counts at
    lines 397-398 raises: the empty list stands for no table then, and
    [main_aboutit] below excludes that case. *)
Definition stats_usagers (usagers : list Usager) : list StatsUsagers :=
  (λ kg, agg_usagers kg.1 kg.2) <$> groupby us_Num_Acc usagers.

Record StatsVehicules : Type := {
  sv_Num_Acc : Z;
  sv_nb_vehicules : Z
}.

(** [vehicules.groupby('Num_Acc').size()]: the number of rows of each group. *)
Definition ligne_vehicules (k : Z) (g : list Vehicule) : StatsVehicules :=
  {| sv_Num_Acc := k; sv_nb_vehicules := len g |}.

Definition stats_vehicules (vehicules : list Vehicule) : list StatsVehicules :=
  (λ kg, ligne_vehicules kg.1 kg.2) <$> groupby ve_Num_Acc vehicules.

(** Arithmetic and comparison on a column that may hold missing values:
    a missing operand makes the result missing, and compares false. *)
Definition fois (x : option Z) (c : Z) : option Z := (λ v, v * c) <$> x.
Definition plus (x y : option Z) : option Z :=
  match x, y with Some a, Some b => Some (a + b) | _, _ => None end.
Definition sup0 (x : option Z) : bool :=
  match x with Some v => bool_decide (v > 0) | None => false end.

(** The accident table after the two statistics merges: a characteristics
    row with the statistics rows matched to it, if any. *)
Record Fusion : Type := {
  fu_caract : Caract;
  fu_usagers : option StatsUsagers;
  fu_vehicules : option StatsVehicules
}.

(** Its columns.  A column that comes from an unmatched right row is
    missing. *)
Definition Num_Acc (row : Fusion) : option Z := ca_Num_Acc (fu_caract row).
Definition nb_pietons (row : Fusion) : option Z := su_nb_pietons <$> fu_usagers row.
Definition pct_hommes (row : Fusion) : option Q := su_pct_hommes <$> fu_usagers row.
Definition age_moyen (row : Fusion) : option Q := fu_usagers row ≫= su_age_moyen.
Definition nb_usagers (row : Fusion) : option Z := su_nb_usagers <$> fu_usagers row.
Definition nb_tues (row : Fusion) : option Z := su_nb_tues <$> fu_usagers row.
Definition nb_blesses_hospitalises (row : Fusion) : option Z :=
  su_nb_blesses_hospitalises <$> fu_usagers row.
Definition nb_blesses_legers (row : Fusion) : option Z :=
  su_nb_blesses_legers <$> fu_usagers row.
Definition nb_indemnes (row : Fusion) : option Z := su_nb_indemnes <$> fu_usagers row.
Definition nb_vehicules (row : Fusion) : option Z := sv_nb_vehicules <$> fu_vehicules row.

Definition fusion_stats (caract : list Caract) (vehicules : list Vehicule)
    (usagers : list Usager) : list Fusion :=
  let df1 := merge_left ca_Num_Acc (Some ∘ su_Num_Acc) caract (stats_usagers usagers) in
  let df2 := merge_left (ca_Num_Acc ∘ fst) (Some ∘ sv_Num_Acc) df1
               (stats_vehicules vehicules) in
  (λ r, {| fu_caract := r.1.1; fu_usagers := r.1.2; fu_vehicules := r.2 |}) <$> df2.

Definition calcul_score_gravite (row : Fusion) : option Z :=
  plus (plus (fois (nb_tues row) 100) (fois (nb_blesses_hospitalises row) 30))
       (fois (nb_blesses_legers row) 10).

Definition categoriser_gravite (row : Fusion) : string :=
  if sup0 (nb_tues row) then "Mortel"
  else if sup0 (nb_blesses_hospitalises row) then "Grave"
  else if sup0 (nb_blesses_legers row) then "Léger"
  else "Matériel uniquement".

(** [(df_accident['nb_tues'] > 0).astype(int)] *)
Definition calcul_accident_mortel (row : Fusion) : Z :=
  if sup0 (nb_tues row) then 1 else 0.

(** The table once the three severity columns are stored on each row. *)
Record Gravite : Type := {
  gr_fusion :> Fusion;
  score_gravite : option Z;
  categorie_gravite : string;
  accident_mortel : Z
}.

Definition ajouter_gravite (row : Fusion) : Gravite :=
  {| gr_fusion := row;
     score_gravite := calcul_score_gravite row;
     categorie_gravite := categoriser_gravite row;
     accident_mortel := calcul_accident_mortel row |}.

(** A row of the accident-grain table: the above with the location row
    matched to it, if any. *)
Record Accident : Type := {
  acc_gravite :> Gravite;
  acc_lieu : option Lieu
}.

(** Steps 4 of [main], up to the merge of the location columns. *)
Definition df_accident (caract : list Caract) (lieux : list Lieu)
    (vehicules : list Vehicule) (usagers : list Usager) : list Accident :=
  let df3 := ajouter_gravite <$> fusion_stats caract vehicules usagers in
  let lieux_enrichi := drop_duplicates li_Num_Acc lieux in
  (λ r, {| acc_gravite := r.1; acc_lieu := r.2 |})
    <$> merge_left (λ g : Gravite, Num_Acc g) li_Num_Acc df3 lieux_enrichi.

(** *** The accident-grain row in closed form

    What [df_accident] holds for one characteristics row, written directly
    from the input tables; [df_accident_lignes] proves the pipeline equal to
    it. *)

Definition stats_du_groupe {A B} (cle : A → option Z) (t : list A)
    (F : Z → list A → B) (k : option Z) : option B :=
  k ≫= λ k, if decide (groupe cle t k = []) then None else Some (F k (groupe cle t k)).

Definition ligne_accident (lieux : list Lieu) (vehicules : list Vehicule)
    (usagers : list Usager) (c : Caract) : Accident :=
  {| acc_gravite := ajouter_gravite
       {| fu_caract := c;
          fu_usagers := stats_du_groupe us_Num_Acc usagers agg_usagers (ca_Num_Acc c);
          fu_vehicules :=
            stats_du_groupe ve_Num_Acc vehicules ligne_vehicules (ca_Num_Acc c) |};
     acc_lieu := head (filter (λ l, li_Num_Acc l = ca_Num_Acc c) lieux) |}.

(** ** Calendar derivations

    [datetime(an, mois, jour).weekday()] as the standard library computes it:
    a date is accepted when the year is in 1..9999, the month in 1..12 and
    the day in 1..days of that month; its ordinal counts days from
    0001-01-01 (ordinal 1, a Monday) in the proleptic Gregorian calendar. *)

Definition MINYEAR : Z := 1.
Definition MAXYEAR : Z := 9999.

Definition is_leap (year : Z) : bool :=
  bool_decide (year mod 4 = 0 ∧ (year mod 100 ≠ 0 ∨ year mod 400 = 0)).

Definition days_before_year (year : Z) : Z :=
  let y := year - 1 in y * 365 + y / 4 - y / 100 + y / 400.

(** Indexed by the month; slot 0 is a placeholder. *)
Definition DAYS_IN_MONTH : list Z :=
  [-1; 31; 28; 31; 30; 31; 30; 31; 31; 30; 31; 30; 31].

Definition DAYS_BEFORE_MONTH : list Z :=
  [-1; 0; 31; 59; 90; 120; 151; 181; 212; 243; 273; 304; 334].

Definition days_in_month (year month : Z) : Z :=
  if bool_decide (month = 2) && is_leap year then 29
  else default 0 (DAYS_IN_MONTH !! Z.to_nat month).

Definition days_before_month (year month : Z) : Z :=
  default 0 (DAYS_BEFORE_MONTH !! Z.to_nat month)
  + (if bool_decide (month > 2) && is_leap year then 1 else 0).

Definition ymd2ord (year month day : Z) : Z :=
  days_before_year year + days_before_month year month + day.

(** The checks of the [datetime] constructor; it raises when one fails. *)
Definition date_valide (year month day : Z) : Prop :=
  MINYEAR ≤ year ≤ MAXYEAR ∧ 1 ≤ month ≤ 12 ∧ 1 ≤ day ≤ days_in_month year month.

#[global] Instance date_valide_dec year month day : Decision (date_valide year month day).
Proof. unfold date_valide. apply _. Defined.

(** [date.weekday()]: 0 for Monday to 6 for Sunday. *)
Definition weekday (year month day : Z) : Z := (ymd2ord year month day + 6) mod 7.

Definition jours : list string :=
  ["Lundi"; "Mardi"; "Mercredi"; "Jeudi"; "Vendredi"; "Samedi"; "Dimanche"].

(** [int(x)] raises on a missing value, the constructor on an invalid date,
    and the bare [except] turns both into the sentinel. *)
Definition determiner_jour_semaine (jour mois an : option Z) : string :=
  match an, mois, jour with
  | Some y, Some m, Some d =>
      if decide (date_valide y m d)
      then default NON_RENSEIGNE (jours !! Z.to_nat (weekday y m d))
      else NON_RENSEIGNE
  | _, _, _ => NON_RENSEIGNE
  end.

(** [df['jour_semaine'].isin(['Samedi', 'Dimanche']).astype(int)] on one cell. *)
Definition est_weekend (jour_semaine : string) : Z :=
  if decide (jour_semaine ∈ ["Samedi"; "Dimanche"]) then 1 else 0.

(** [col.astype(int)]: the conversion of the whole column raises when a
    cell is missing ([None] here), and returns the integers otherwise. *)
Definition astype_int (col : list (option Z)) : option (list Z) := mapM id col.

Definition mois_noms : list (Z * string) :=
  [(1, "Janvier"); (2, "Février"); (3, "Mars"); (4, "Avril"); (5, "Mai");
   (6, "Juin"); (7, "Juillet"); (8, "Août"); (9, "Septembre"); (10, "Octobre");
   (11, "Novembre"); (12, "Décembre")].

(** [df['mois'].astype(int).map(mois_noms)]: no [fillna] follows, so a
    month without a name gets a missing cell. *)
Definition colonne_mois_nom (mois : list (option Z)) : option (list (option string)) :=
  fmap (M:=list) (dict_get mois_noms) <$> astype_int mois.

(** [((df['mois'].astype(int) - 1) // 3) + 1] *)
Definition trimestre (mois : Z) : Z := (mois - 1) / 3 + 1.

Definition colonne_trimestre (mois : list (option Z)) : option (list Z) :=
  fmap (M:=list) trimestre <$> astype_int mois.

(** ** The person-grain table *)

(** [left.merge(right, on=[...], how='left')] on keys of any type with
    decidable equality; [merge_left] is the case of one [Num_Acc] key. *)
Definition merge_left_sur {A B K} `{EqDecision K} (cleA : A → K) (cleB : B → K)
    (gauche : list A) (droite : list B) : list (A * option B) :=
  gauche ≫= λ a,
    match filter (λ b, cleB b = cleA a) droite with
    | [] => [(a, None)]
    | bs => (λ b, (a, Some b)) <$> bs
    end.

(** A row of the person-grain table: a characteristics row with the
    location, vehicle and person rows matched to it, if any. *)
Record Detaille : Type := {
  de_caract : Caract;
  de_lieu : option Lieu;
  de_vehicule : option Vehicule;
  de_usager : option Usager
}.

(** The cells [id_vehicule] and [num_veh] of a row after the vehicles
    merge: missing when no vehicle row was matched. *)
Definition id_vehicule (v : option Vehicule) : valeur := from_option ve_id_vehicule NaN v.
Definition num_veh (v : option Vehicule) : valeur := from_option ve_num_veh NaN v.

(** Step 2 of [main]: the three left merges, the last one on
    [Num_Acc], [id_vehicule], [num_veh]. *)
Definition df_detaille (caract : list Caract) (lieux : list Lieu)
    (vehicules : list Vehicule) (usagers : list Usager) : list Detaille :=
  let df1 := merge_left ca_Num_Acc li_Num_Acc caract lieux in
  let df2 := merge_left (ca_Num_Acc ∘ fst) ve_Num_Acc df1 vehicules in
  let df3 := merge_left_sur
               (λ r : Caract * option Lieu * option Vehicule,
                  (ca_Num_Acc r.1.1, id_vehicule r.2, num_veh r.2))
               (λ u, (us_Num_Acc u, us_id_vehicule u, us_num_veh u))
               df2 usagers in
  (λ r, {| de_caract := r.1.1.1; de_lieu := r.1.1.2;
           de_vehicule := r.1.2; de_usager := r.2 |}) <$> df3.

(** ** Runs of [main] that reach the write

    The contents of the tables can stop [main] at three places before the
    accident-grain table is written:
    - lines 369 and 372 (again at 444 and 445): [astype(int)] raises on a
      [mois] column with a missing cell; the [mois] cells of the person-grain
      table are those of the characteristics rows, each of which occurs in
      it;
    - line 376: [pd.cut] raises on an [age] column that holds no number,
      which is the case when no row of the person-grain table carries a
      person with a valid birth year;
    - lines 397-398: the four counts cannot be assigned when [groupby] has
      produced no group, that is when no person row has a [Num_Acc].
    [main_aboutit] excludes the three.  [df_accident] describes the table
    that such a run writes. *)

(** The [age] cell of a row of the person-grain table (line 375). *)
Definition age_detaille (d : Detaille) : option Z :=
  de_usager d ≫= λ u, age (us_an_nais u).

Definition main_aboutit (caract : list Caract) (lieux : list Lieu)
    (vehicules : list Vehicule) (usagers : list Usager) : Prop :=
  (None ∉ ca_mois <$> caract)
  ∧ Exists (λ d, is_Some (age_detaille d))
           (df_detaille caract lieux vehicules usagers)
  ∧ Exists (λ u, is_Some (us_Num_Acc u)) usagers.

#[global] Instance main_aboutit_dec caract lieux vehicules usagers :
  Decision (main_aboutit caract lieux vehicules usagers).
Proof. unfold main_aboutit. apply _. Defined.

(** ** The dashboard ([app.py]) *)

Definition get_color_map : list (string * string) :=
  [("Mortel", "#DC3545"); ("Grave", "#FD7E14"); ("Léger", "#FFC107");
   ("Matériel uniquement", "#28A745")].

(** [(date >= start_date) & (date <= end_date)] on one cell: a missing date
    compares false. *)
Definition dans_periode (start_date end_date : Z) (d : option Z) : Prop :=
  match d with
  | Some d => start_date ≤ d ∧ d ≤ end_date
  | None => False
  end.

#[global] Instance dans_periode_dec start_date end_date d :
  Decision (dans_periode start_date end_date d).
Proof. destruct d; apply _. Defined.

Section Filtres.

(** The accident-grain table as the dashboard reads it back: a list of
    rows of some type [L] with the five columns that the filters read.  A
    date is its day number, missing when the cell is not a date; [dep] is
    the department converted to text; a label column may be missing. *)
Context {L : Type}.
Variable date : L → option Z.
Variable dep : L → string.
Variable categorie : L → string.
Variable catr_desc : L → option string.
Variable agg_desc : L → option string.

(** The "Apply filters" block of [main]: five filters in sequence, each
    applied only when its widget holds a selection. *)
Definition appliquer_filtres (date_range : list Z)
    (selected_dept selected_severities : list string)
    (selected_road selected_agg : string) (df : list L) : list L :=
  let df1 :=
    match date_range with
    | [start_date; end_date] =>
        filter (λ r, dans_periode start_date end_date (date r)) df
    | _ => df
    end in
  let df2 :=
    if decide (selected_dept = []) then df1
    else filter (λ r, dep r ∈ selected_dept) df1 in
  let df3 :=
    if decide (selected_severities = []) then df2
    else filter (λ r, categorie r ∈ selected_severities) df2 in
  let df4 :=
    if decide (selected_road = "Tous") then df3
    else filter (λ r, catr_desc r = Some selected_road) df3 in
  if decide (selected_agg = "Tous") then df4
  else filter (λ r, agg_desc r = Some selected_agg) df4.

(** The rows that a selection keeps: the conjunction of the five tests,
    each test counting as passed when its widget holds no selection. *)
Definition retenue (date_range : list Z)
    (selected_dept selected_severities : list string)
    (selected_road selected_agg : string) (r : L) : Prop :=
  match date_range with
  | [start_date; end_date] => dans_periode start_date end_date (date r)
  | _ => True
  end
  ∧ (selected_dept = [] ∨ dep r ∈ selected_dept)
  ∧ (selected_severities = [] ∨ categorie r ∈ selected_severities)
  ∧ (selected_road = "Tous" ∨ catr_desc r = Some selected_road)
  ∧ (selected_agg = "Tous" ∨ agg_desc r = Some selected_agg).

#[global] Instance retenue_dec date_range selected_dept selected_severities
    selected_road selected_agg r :
  Decision (retenue date_range selected_dept selected_severities
              selected_road selected_agg r).
Proof.
  unfold retenue.
  destruct date_range as [|? [|? [|? ?]]]; apply _.
Defined.

End Filtres.

(** *** Column totals *)

(** [col.sum()]: missing cells are skipped, and a column without any value
    sums to 0. *)
Definition sum_skipna (col : list (option Z)) : Z := somme (omap id col).

(** *** The dashboard's month numbers ([load_data] of [app.py]) *)

(** A Python dict with text keys, as its item list. *)
Fixpoint dict_get_str {V} (d : list (string * V)) (k : string) : option V :=
  match d with
  | [] => None
  | (k', v) :: d' => if decide (k' = k) then Some v else dict_get_str d' k
  end.

Definition month_order : list (string * Z) :=
  [("Janvier", 1); ("Fevrier", 2); ("Mars", 3); ("Avril", 4); ("Mai", 5);
   ("Juin", 6); ("Juillet", 7); ("Aout", 8); ("Septembre", 9); ("Octobre", 10);
   ("Novembre", 11); ("Decembre", 12)].

(** [df['mois_nom'].map(month_order)] on one cell. *)
Definition mois_num (mois_nom : option string) : option Z :=
  mois_nom ≫= dict_get_str month_order.

(** The name that follows a weekday name; other text is left alone. *)
Definition jour_suivant (j : string) : string :=
  default j (snd <$> head (filter (λ jj : string * string, jj.1 = j)
    [("Lundi", "Mardi"); ("Mardi", "Mercredi"); ("Mercredi", "Jeudi");
     ("Jeudi", "Vendredi"); ("Vendredi", "Samedi"); ("Samedi", "Dimanche");
     ("Dimanche", "Lundi")])).

(** The day after a date, for stating how [weekday] moves. *)
Definition lendemain (year month day : Z) : Z * Z * Z :=
  if decide (day < days_in_month year month) then (year, month, day + 1)
  else if decide (month < 12) then (year, month + 1, 1)
  else (year + 1, 1, 1).

(** [df_filtered[df_filtered['est_weekend'] == 1].shape[0] /
    len(df_filtered) * 100] (line 478): a quotient of two Python integers.
    On an empty table the quotient has no value ([None] here); the dashboard
    does not evaluate it then, the peak-month lookup of line 455 having
    already failed. *)
Definition weekend_pct {L} (col_est_weekend : L → Z) (df_filtered : list L) :
    option Q :=
  if decide (len df_filtered = 0) then None
  else Some (Qmult
               (division
                  (len (filter (λ r, col_est_weekend r = 1) df_filtered))
                  (len df_filtered))
               (inject_Z 100)).

(** A small dashboard table: one row without a date, one without a
    road category. *)
Record LigneTableau : Type := {
  lt_date : option Z;
  lt_dep : string;
  lt_categorie_gravite : string;
  lt_catr_desc : option string;
  lt_agg_desc : option string
}.

Definition tableau_exemple : list LigneTableau :=
  [ {| lt_date := Some 739081; lt_dep := "75"; lt_categorie_gravite := "Grave";
       lt_catr_desc := Some "Voie communale";
       lt_agg_desc := Some "En agglomération" |};
    {| lt_date := None; lt_dep := "2A"; lt_categorie_gravite := "Mortel";
       lt_catr_desc := Some "Route départementale";
       lt_agg_desc := Some "Hors agglomération" |};
    {| lt_date := Some 739256; lt_dep := "13"; lt_categorie_gravite := "Léger";
       lt_catr_desc := None; lt_agg_desc := Some "En agglomération" |} ].

(** ** Vocabulary of the statements *)

(** A count that is present and positive: the test [x > 0] of the code
    holds exactly then ([sup0_positif]). *)
Definition positif (x : option Z) : Prop := ∃ v, x = Some v ∧ 0 < v.

(** The ages of the persons of a group whose birth year is valid, that is
    neither missing nor the sentinel -1: the values that [calculer_age]
    yields for the reference year 2024. *)
Definition ages_valides (g : list Usager) : list Z :=
  omap (λ u, age (us_an_nais u)) g.

(** The derived column names that enriching the columns of [ms] writes. *)
Definition noms_enrichis (ms : list (string * list (Z * string))) : list string :=
  ms ≫= λ cm, [cm.1 +:+ "_code"; cm.1 +:+ "_desc"].

(** ** Sample tables

    The two scenarios of the specification: accident 1 has three persons
    (killed, lightly injured, unharmed), accident 2 has two hospitalised
    persons born in 1990 and 2000; accident 3 has no person row, and
    accident 1 has two location rows. *)

Definition usager_exemple (k : Z) (id : valeur) (grav sexe an_nais : Z) : Usager :=
  {| us_Num_Acc := Some k; us_id_usager := id;
     us_id_vehicule := Texte "155 680 557"; us_num_veh := Texte "A01";
     us_grav := Some grav; us_catu := Some 1; us_sexe := Some sexe;
     us_an_nais := Some an_nais |}.

Definition caract_exemple (k : Z) : Caract :=
  {| ca_Num_Acc := Some k; ca_jour := Some 14; ca_mois := Some 7;
     ca_an := Some 2024; ca_hrmn := Some "08:15"; ca_lum := Entier 1;
     ca_agg := Entier 2; ca_int := Entier 1; ca_atm := Entier 1;
     ca_col := Entier 3 |}.

Definition lieu_exemple (k vma : Z) : Lieu :=
  {| li_Num_Acc := Some k; li_vma := Entier vma; li_nbv := Entier 2;
     li_catr := Entier 3; li_surf := Entier 1; li_plan := Entier 1;
     li_prof := Entier 1; li_circ := Entier 2; li_infra := Entier 0;
     li_situ := Entier 1 |}.

Definition vehicule_exemple (k : Z) (num_veh : string) : Vehicule :=
  {| ve_Num_Acc := Some k; ve_id_vehicule := Texte "155 680 557";
     ve_num_veh := Texte num_veh |}.

Definition caract_exemples : list Caract :=
  [caract_exemple 2; caract_exemple 1; caract_exemple 3].

Definition lieux_exemples : list Lieu :=
  [lieu_exemple 1 50; lieu_exemple 2 80; lieu_exemple 1 90].

Definition vehicules_exemples : list Vehicule :=
  [vehicule_exemple 1 "A01"; vehicule_exemple 1 "B01"; vehicule_exemple 2 "A01"].

Definition usagers_exemples : list Usager :=
  [usager_exemple 1 (Texte "203 851 184") 2 1 1975;
   usager_exemple 2 (Texte "203 851 190") 3 1 1990;
   usager_exemple 1 (Texte "203 851 185") 4 2 (-1);
   usager_exemple 2 (Texte "203 851 191") 3 2 2000;
   usager_exemple 1 (Texte "203 851 186") 1 1 1981].

(** The same persons, the one with the sentinel birth year having no
    [id_usager]. *)
Definition usagers_sans_identifiant : list Usager :=
  [usager_exemple 1 (Texte "203 851 184") 2 1 1975;
   usager_exemple 2 (Texte "203 851 190") 3 1 1990;
   usager_exemple 1 NaN 4 2 (-1);
   usager_exemple 2 (Texte "203 851 191") 3 2 2000;
   usager_exemple 1 (Texte "203 851 186") 1 1 1981].

Definition df_accident_exemple : list Accident :=
  df_accident caract_exemples lieux_exemples vehicules_exemples usagers_exemples.

(** * Properties *)

(** ** Merging on a right table with unique keys *)

Section FaitsTables.

Context {A B : Type}.
Implicit Types (cleA : A → option Z) (cleB : B → option Z).

Lemma filter_cle_absente cleB (k : option Z) (droite : list B) :
  k ∉ cleB <$> droite → filter (λ b, cleB b = k) droite = [].
Proof.
  induction droite as [|b droite IH]; [done|].
  rewrite fmap_cons, not_elem_of_cons. intros [Hb Hr].
  rewrite filter_cons_False by congruence. auto.
Qed.

Lemma filter_cle_unique cleB (k : option Z) (droite : list B) :
  NoDup (cleB <$> droite) →
  filter (λ b, cleB b = k) droite
  = option_list (head (filter (λ b, cleB b = k) droite)).
Proof.
  induction droite as [|b droite IH]; [done|].
  rewrite fmap_cons, NoDup_cons. intros [Hb Hnd].
  destruct (decide (cleB b = k)) as [<-|Hne].
  - rewrite filter_cons_True by done. simpl.
    by rewrite filter_cle_absente.
  - rewrite filter_cons_False by done. auto.
Qed.

Lemma merge_left_unique cleA cleB (gauche : list A) (droite : list B) :
  NoDup (cleB <$> droite) →
  merge_left cleA cleB gauche droite
  = (λ a, (a, head (filter (λ b, cleB b = cleA a) droite))) <$> gauche.
Proof.
  intros Hnd. unfold merge_left.
  induction gauche as [|a gauche IH]; [done|].
  rewrite bind_cons, fmap_cons, IH.
  rewrite (filter_cle_unique cleB (cleA a) droite Hnd).
  by destruct (head _).
Qed.

(** *** First-row de-duplication *)

Lemma drop_duplicates_depuis_cles cleB (vues : list (option Z)) (t : list B) :
  NoDup (cleB <$> drop_duplicates_depuis cleB vues t)
  ∧ ∀ k, k ∈ cleB <$> drop_duplicates_depuis cleB vues t → k ∉ vues.
Proof.
  revert vues. induction t as [|r t IH]; intros vues; simpl.
  - split; [constructor | intros k Hk; by apply elem_of_nil in Hk].
  - case_decide as Hr; [apply IH|].
    destruct (IH (cleB r :: vues)) as [Hnd Hfrais].
    rewrite fmap_cons. split.
    + apply NoDup_cons. split; [|done].
      intros Hin. apply Hfrais in Hin. apply Hin. left.
    + intros k [->|Hk]%elem_of_cons; [done|].
      apply Hfrais in Hk. intros Hvu. apply Hk. by right.
Qed.

Lemma drop_duplicates_NoDup cleB (t : list B) :
  NoDup (cleB <$> drop_duplicates cleB t).
Proof. apply drop_duplicates_depuis_cles. Qed.

Lemma drop_duplicates_depuis_head cleB (vues : list (option Z)) (t : list B) k :
  head (filter (λ r, cleB r = k) (drop_duplicates_depuis cleB vues t))
  = if decide (k ∈ vues) then None else head (filter (λ r, cleB r = k) t).
Proof.
  revert vues. induction t as [|r t IH]; intros vues; simpl.
  - by case_decide.
  - case_decide as Hr.
    + rewrite IH. case_decide as Hk; [done|].
      rewrite (filter_cons_False _ r) by congruence. done.
    + destruct (decide (cleB r = k)) as [<-|Hne].
      * rewrite !filter_cons_True by done. simpl. by rewrite decide_False.
      * rewrite !filter_cons_False by done. rewrite IH.
        destruct (decide (k ∈ vues)) as [Hk|Hk].
        -- by rewrite decide_True by (by right).
        -- rewrite decide_False; [done|].
           intros [->|?]%elem_of_cons; [by apply Hne | done].
Qed.

Lemma drop_duplicates_head cleB (t : list B) k :
  head (filter (λ r, cleB r = k) (drop_duplicates cleB t))
  = head (filter (λ r, cleB r = k) t).
Proof.
  unfold drop_duplicates. rewrite drop_duplicates_depuis_head.
  rewrite decide_False; [done | apply not_elem_of_nil].
Qed.

(** *** Groups *)

Lemma groupby_cles cleA (t : list A) :
  (groupby cleA t).*1 = merge_sort Z.le (remove_dups (omap cleA t)).
Proof.
  unfold groupby. rewrite <- list_fmap_compose. apply list_fmap_id.
Qed.

Lemma groupby_cles_NoDup cleA (t : list A) : NoDup (groupby cleA t).*1.
Proof.
  rewrite groupby_cles, merge_sort_Permutation. apply NoDup_remove_dups.
Qed.

Lemma elem_of_groupby_cles cleA (t : list A) k :
  k ∈ (groupby cleA t).*1 ↔ groupe cleA t k ≠ [].
Proof.
  rewrite groupby_cles, merge_sort_Permutation, elem_of_remove_dups, list_elem_of_omap.
  unfold groupe. split.
  - intros (r & Hr & Hk) Hnil.
    eapply filter_nil_not_elem_of; [exact Hnil | exact Hk | exact Hr].
  - intros Hne. destruct (filter _ t) as [|r g] eqn:Hg; [done|].
    assert (r ∈ filter (λ r, cleA r = Some k) t) as Hin by (rewrite Hg; left).
    apply list_elem_of_filter in Hin as [Hk Hr]. by exists r.
Qed.

Lemma elem_of_groupby cleA (t : list A) k g :
  (k, g) ∈ groupby cleA t → g = groupe cleA t k ∧ g ≠ [].
Proof.
  intros Hin. assert (k ∈ (groupby cleA t).*1) as Hk.
  { apply list_elem_of_fmap. by exists (k, g). }
  apply elem_of_groupby_cles in Hk.
  unfold groupby in Hin. apply list_elem_of_fmap in Hin as (k' & [= -> ->] & _).
  done.
Qed.

(** A table computed group by group, [F k g] being the row of key [k]. *)
Section ParGroupe.

Context (cleA : A → option Z) (cleB : B → option Z) (F : Z → list A → B).
Hypothesis cle_F : ∀ k g, cleB (F k g) = Some k.

Lemma table_par_groupe (t : list A) :
  (λ kg, F kg.1 kg.2) <$> groupby cleA t
  = (λ k, F k (groupe cleA t k)) <$> (groupby cleA t).*1.
Proof. unfold groupby. by rewrite <- !list_fmap_compose. Qed.

Lemma table_par_groupe_NoDup (t : list A) :
  NoDup (cleB <$> ((λ kg, F kg.1 kg.2) <$> groupby cleA t)).
Proof.
  rewrite table_par_groupe, <- list_fmap_compose.
  erewrite list_fmap_ext; [apply (NoDup_fmap_2 Some), groupby_cles_NoDup|].
  intros _ k _. apply cle_F.
Qed.

Lemma head_filter_cles (G : Z → list A) (cles : list Z) (ko : option Z) :
  head (filter (λ b, cleB b = ko) ((λ k, F k (G k)) <$> cles))
  = match ko with
    | Some k => if decide (k ∈ cles) then Some (F k (G k)) else None
    | None => None
    end.
Proof.
  induction cles as [|k' cles IH].
  - destruct ko as [k|]; [|done].
    case_decide as Hk; [by apply elem_of_nil in Hk | done].
  - rewrite fmap_cons, filter_cons, cle_F.
    destruct (decide (Some k' = ko)) as [<-|Hne].
    + cbn [head]. by rewrite decide_True by left.
    + rewrite IH. destruct ko as [k|]; [|done].
      destruct (decide (k ∈ cles)) as [Hin|Hnin].
      * by rewrite decide_True by (by right).
      * rewrite decide_False; [done|].
        intros [->|?]%elem_of_cons; [by apply Hne | done].
Qed.

Lemma table_par_groupe_head (t : list A) (k : option Z) :
  head (filter (λ b, cleB b = k) ((λ kg, F kg.1 kg.2) <$> groupby cleA t))
  = stats_du_groupe cleA t F k.
Proof.
  rewrite table_par_groupe. unfold stats_du_groupe.
  rewrite (head_filter_cles (groupe cleA t)).
  destruct k as [k|]; [|done].
  change (Some k ≫= ?f) with (f k). cbv beta.
  destruct (decide (groupe cleA t k = [])) as [Hnil|Hne].
  - rewrite decide_False; [done|]. by intros Hk%elem_of_groupby_cles.
  - rewrite decide_True; [done|]. by apply elem_of_groupby_cles.
Qed.

End ParGroupe.

End FaitsTables.

(** ** The accident-grain table, row by row *)

Lemma df_accident_lignes caract lieux vehicules usagers :
  df_accident caract lieux vehicules usagers
  = ligne_accident lieux vehicules usagers <$> caract.
Proof.
  unfold df_accident, fusion_stats, stats_usagers, stats_vehicules.
  rewrite (merge_left_unique _ li_Num_Acc) by apply drop_duplicates_NoDup.
  rewrite (merge_left_unique _ (Some ∘ sv_Num_Acc))
    by (by apply (table_par_groupe_NoDup ve_Num_Acc _ ligne_vehicules)).
  rewrite (merge_left_unique _ (Some ∘ su_Num_Acc))
    by (by apply (table_par_groupe_NoDup us_Num_Acc _ agg_usagers)).
  rewrite <- !list_fmap_compose. apply list_fmap_ext. intros _ c _. simpl.
  unfold ligne_accident. f_equal.
  - f_equal. f_equal.
    + by apply (table_par_groupe_head us_Num_Acc _ agg_usagers).
    + by apply (table_par_groupe_head ve_Num_Acc _ ligne_vehicules).
  - apply drop_duplicates_head.
Qed.

Lemma stats_du_groupe_Some {A B} (cle : A → option Z) (t : list A)
    (F : Z → list A → B) (k : Z) :
  groupe cle t k ≠ [] →
  stats_du_groupe cle t F (Some k) = Some (F k (groupe cle t k)).
Proof.
  intros Hne. unfold stats_du_groupe.
  change (Some k ≫= ?f) with (f k). cbv beta. by rewrite decide_False.
Qed.

Lemma stats_du_groupe_None {A B} (cle : A → option Z) (t : list A)
    (F : Z → list A → B) (ko : option Z) :
  (∀ r, r ∈ t → cle r ≠ ko) → stats_du_groupe cle t F ko = None.
Proof.
  intros Hsans. destruct ko as [k|]; [|done]. unfold stats_du_groupe.
  change (Some k ≫= ?f) with (f k). cbv beta. rewrite decide_True; [done|].
  unfold groupe. destruct (filter _ t) as [|r g] eqn:Hg; [done|].
  assert (r ∈ filter (λ r, cle r = Some k) t) as Hin by (rewrite Hg; left).
  apply list_elem_of_filter in Hin as [Hk Hr]. by apply Hsans in Hr.
Qed.

(** Every row of the accident-grain table is the closed-form row of some
    characteristics row. *)
Lemma elem_of_df_accident caract lieux vehicules usagers (r : Accident) :
  r ∈ df_accident caract lieux vehicules usagers →
  ∃ c, c ∈ caract ∧ r = ligne_accident lieux vehicules usagers c.
Proof.
  rewrite df_accident_lignes. intros (c & -> & Hc)%list_elem_of_fmap. eauto.
Qed.

Ltac ligne Hr c :=
  apply elem_of_df_accident in Hr as (c & ? & ->);
  cbn [ligne_accident acc_gravite acc_lieu ajouter_gravite gr_fusion
       score_gravite categorie_gravite accident_mortel] in *.

(** ** Severity score and class *)

Lemma sup0_positif (x : option Z) : sup0 x = true ↔ positif x.
Proof.
  unfold sup0, positif. destruct x as [v|].
  - rewrite bool_decide_eq_true. split; [intros; exists v; split; [done|lia]|].
    intros (? & [= <-] & ?). lia.
  - split; [done | by intros (? & ? & ?)].
Qed.

Lemma sup0_non_positif (x : option Z) : sup0 x = false ↔ ¬ positif x.
Proof. rewrite <- sup0_positif. by destruct (sup0 x). Qed.

(** C1. On every row of the accident-grain table whose three casualty
    counts are defined, [score_gravite] is
    [nb_tues*100 + nb_blesses_hospitalises*30 + nb_blesses_legers*10]. *)
Theorem score_gravite_somme_ponderee caract lieux vehicules usagers
    (r : Accident) (t h l : Z) :
  r ∈ df_accident caract lieux vehicules usagers →
  nb_tues r = Some t →
  nb_blesses_hospitalises r = Some h →
  nb_blesses_legers r = Some l →
  score_gravite r = Some (t * 100 + h * 30 + l * 10).
Proof.
  intros Hr Ht Hh Hl. ligne Hr c.
  unfold calcul_score_gravite. by rewrite Ht, Hh, Hl.
Qed.

Lemma ligne_exemple_1 :
  ligne_accident lieux_exemples vehicules_exemples usagers_exemples (caract_exemple 1)
  ∈ df_accident_exemple.
Proof. vm_compute. right. left. Defined.

Lemma ligne_exemple_3 :
  ligne_accident lieux_exemples vehicules_exemples usagers_exemples (caract_exemple 3)
  ∈ df_accident_exemple.
Proof. vm_compute. right. right. left. Defined.

Lemma score_gravite_somme_ponderee_temoin :
  ∃ r : Accident,
    r ∈ df_accident_exemple ∧ Num_Acc r = Some 1 ∧ score_gravite r = Some 110.
Proof.
  exists (ligne_accident lieux_exemples vehicules_exemples usagers_exemples (caract_exemple 1)).
  split; [exact ligne_exemple_1|]. split; [reflexivity|].
  exact (score_gravite_somme_ponderee _ _ _ _ _ 1 0 1
           ligne_exemple_1 eq_refl eq_refl eq_refl).
Defined.

(** C2. On every row of the accident-grain table, [categorie_gravite] is
    decided by the first of three tests that holds, in this order: a
    positive [nb_tues] gives "Mortel" (fatal) whatever the other counts; else
    a positive [nb_blesses_hospitalises] gives "Grave" (severe); else a
    positive [nb_blesses_legers] gives "Léger" (light); else the row is
    "Matériel uniquement" (material damage only). *)
Theorem categorie_gravite_priorite caract lieux vehicules usagers (r : Accident) :
  r ∈ df_accident caract lieux vehicules usagers →
  (positif (nb_tues r) → categorie_gravite r = "Mortel")
  ∧ (¬ positif (nb_tues r) → positif (nb_blesses_hospitalises r) →
       categorie_gravite r = "Grave")
  ∧ (¬ positif (nb_tues r) → ¬ positif (nb_blesses_hospitalises r) →
       positif (nb_blesses_legers r) → categorie_gravite r = "Léger")
  ∧ (¬ positif (nb_tues r) → ¬ positif (nb_blesses_hospitalises r) →
       ¬ positif (nb_blesses_legers r) →
       categorie_gravite r = "Matériel uniquement").
Proof.
  intros Hr. ligne Hr c. unfold categoriser_gravite.
  repeat split; intros;
    repeat match goal with
    | H : positif _ |- _ => apply sup0_positif in H; rewrite H; clear H
    | H : ¬ positif _ |- _ => apply sup0_non_positif in H; rewrite H; clear H
    end; reflexivity.
Qed.

Lemma categorie_gravite_priorite_temoin :
  ∃ r : Accident,
    r ∈ df_accident_exemple
    ∧ nb_tues r = Some 1 ∧ nb_blesses_legers r = Some 1
    ∧ categorie_gravite r = "Mortel".
Proof.
  exists (ligne_accident lieux_exemples vehicules_exemples usagers_exemples (caract_exemple 1)).
  split; [exact ligne_exemple_1|]. split; [reflexivity|]. split; [reflexivity|].
  apply (proj1 (categorie_gravite_priorite _ _ _ _ _ ligne_exemple_1)).
  exists 1. split; [reflexivity | lia].
Defined.

(** C9. An accident of the characteristics table that no row of the
    persons table matches has missing casualty counts after the left merge,
    is classed "Matériel uniquement" and has [accident_mortel = 0]; and on
    every row the class is one of the four labels and the flag is 0 or 1, so
    neither is ever missing. *)
Theorem accident_sans_usager caract lieux vehicules usagers (r : Accident) :
  r ∈ df_accident caract lieux vehicules usagers →
  (categorie_gravite r ∈ ["Mortel"; "Grave"; "Léger"; "Matériel uniquement"]
   ∧ (accident_mortel r = 0 ∨ accident_mortel r = 1))
  ∧ ((∀ u, u ∈ usagers → us_Num_Acc u ≠ Num_Acc r) →
     nb_tues r = None
     ∧ nb_blesses_hospitalises r = None
     ∧ nb_blesses_legers r = None
     ∧ nb_indemnes r = None
     ∧ categorie_gravite r = "Matériel uniquement"
     ∧ accident_mortel r = 0).
Proof.
  intros Hr. ligne Hr c. split.
  - unfold categoriser_gravite, calcul_accident_mortel.
    repeat case_match; split; auto; rewrite !elem_of_cons; auto 6.
  - intros Hsans.
    unfold categoriser_gravite, calcul_accident_mortel, nb_tues,
      nb_blesses_hospitalises, nb_blesses_legers, nb_indemnes, Num_Acc in *.
    cbn [fu_usagers fu_caract] in *.
    by rewrite stats_du_groupe_None.
Qed.

Lemma accident_sans_usager_temoin :
  ∃ r : Accident,
    r ∈ df_accident_exemple ∧ Num_Acc r = Some 3
    ∧ nb_tues r = None ∧ categorie_gravite r = "Matériel uniquement"
    ∧ accident_mortel r = 0.
Proof.
  exists (ligne_accident lieux_exemples vehicules_exemples usagers_exemples (caract_exemple 3)).
  split; [exact ligne_exemple_3|]. split; [reflexivity|].
  destruct (proj2 (accident_sans_usager _ _ _ _ _ ligne_exemple_3))
    as (Ht & _ & _ & _ & Hc & Hm).
  - intros u Hu.
    repeat (apply elem_of_cons in Hu as [->|Hu]; [discriminate|]).
    by apply elem_of_nil in Hu.
  - split; [exact Ht|]. split; [exact Hc | exact Hm].
Defined.

(** C7. The accident-grain table has exactly the rows of the
    characteristics table, one for one and in order, whatever the other
    tables hold; a row that no person matches has every person aggregate
    missing; and the location attached to a row is the first location row
    with its [Num_Acc], if there is one. *)
Theorem une_ligne_par_accident caract lieux vehicules usagers :
  (λ r : Accident, fu_caract r) <$> df_accident caract lieux vehicules usagers
  = caract
  ∧ length (df_accident caract lieux vehicules usagers) = length caract
  ∧ ∀ r : Accident, r ∈ df_accident caract lieux vehicules usagers →
      ((∀ u, u ∈ usagers → us_Num_Acc u ≠ Num_Acc r) →
         nb_pietons r = None ∧ pct_hommes r = None ∧ age_moyen r = None
         ∧ nb_usagers r = None ∧ nb_tues r = None
         ∧ nb_blesses_hospitalises r = None ∧ nb_blesses_legers r = None
         ∧ nb_indemnes r = None)
      ∧ acc_lieu r = head (filter (λ l, li_Num_Acc l = Num_Acc r) lieux).
Proof.
  split; [|split].
  - rewrite df_accident_lignes, <- list_fmap_compose. apply list_fmap_id.
  - by rewrite df_accident_lignes, length_fmap.
  - intros r Hr. ligne Hr c. split; [|done]. intros Hsans.
    unfold nb_pietons, pct_hommes, age_moyen, nb_usagers, nb_tues,
      nb_blesses_hospitalises, nb_blesses_legers, nb_indemnes, Num_Acc in *.
    cbn [fu_usagers fu_caract] in *.
    by rewrite stats_du_groupe_None.
Qed.

Lemma une_ligne_par_accident_temoin :
  length df_accident_exemple = 3%nat
  ∧ ∃ r : Accident,
      r ∈ df_accident_exemple ∧ Num_Acc r = Some 1
      ∧ acc_lieu r = Some (lieu_exemple 1 50).
Proof.
  destruct (une_ligne_par_accident caract_exemples lieux_exemples
              vehicules_exemples usagers_exemples) as (_ & Hlen & Hlignes).
  split; [exact Hlen|].
  exists (ligne_accident lieux_exemples vehicules_exemples usagers_exemples (caract_exemple 1)).
  split; [exact ligne_exemple_1|]. split; [reflexivity|].
  rewrite (proj2 (Hlignes _ ligne_exemple_1)). reflexivity.
Defined.

(** ** Person aggregates *)

Lemma somme_egal_colonne {A} (col : A → option Z) (c : Z) (g : list A) :
  somme_egal c (col <$> g) = len (filter (λ r, col r = Some c) g).
Proof.
  unfold somme_egal, len. f_equal.
  induction g as [|a g IH]; [done|].
  rewrite fmap_cons, !filter_cons.
  destruct (decide (col a = Some c)); cbn [length]; by rewrite IH.
Qed.

Lemma agg_count_colonne {A} (col : A → valeur) (g : list A) :
  agg_count (col <$> g) = len (filter (λ r, col r ≠ NaN) g).
Proof.
  unfold agg_count, len. f_equal.
  induction g as [|a g IH]; [done|].
  rewrite fmap_cons, !filter_cons.
  destruct (decide (col a ≠ NaN)); cbn [length]; by rewrite IH.
Qed.

Lemma elem_of_stats_usagers usagers (s : StatsUsagers) :
  s ∈ stats_usagers usagers ↔
  groupe us_Num_Acc usagers (su_Num_Acc s) ≠ []
  ∧ s = agg_usagers (su_Num_Acc s) (groupe us_Num_Acc usagers (su_Num_Acc s)).
Proof.
  unfold stats_usagers. rewrite list_elem_of_fmap. split.
  - intros ([k g] & -> & [-> Hne]%elem_of_groupby). done.
  - intros [Hne Hs]. exists (su_Num_Acc s, groupe us_Num_Acc usagers (su_Num_Acc s)).
    split; [done|]. unfold groupby. apply list_elem_of_fmap.
    exists (su_Num_Acc s). split; [done|].
    apply (elem_of_groupby_cles us_Num_Acc usagers) in Hne.
    by rewrite groupby_cles in Hne.
Qed.

(** The statistics that the accident-grain row of key [k] carries, when the
    persons table has rows of that key. *)
Lemma fu_usagers_ligne lieux vehicules usagers (c : Caract) (k : Z) :
  ca_Num_Acc c = Some k →
  groupe us_Num_Acc usagers k ≠ [] →
  fu_usagers (ligne_accident lieux vehicules usagers c)
  = Some (agg_usagers k (groupe us_Num_Acc usagers k)).
Proof.
  intros Hk Hne. cbn [ligne_accident acc_gravite ajouter_gravite gr_fusion fu_usagers].
  rewrite Hk. by apply stats_du_groupe_Some.
Qed.

(** C5, as stated, fails: a person row whose [id_usager] is empty is in
    the group of its accident and is not counted by ['count'].  Here the
    group of accident 1 has two rows and [nb_usagers] is 1. *)
Lemma nb_usagers_lignes_contre_exemple :
  let usagers := [usager_exemple 1 (Texte "203 851 184") 4 1 1990;
                  usager_exemple 1 NaN 1 2 1985] in
  len (groupe us_Num_Acc usagers 1) = 2
  ∧ ∃ s, s ∈ stats_usagers usagers ∧ su_Num_Acc s = 1 ∧ su_nb_usagers s = 1.
Proof.
  split; [reflexivity|].
  eexists. split; [vm_compute; left|]. split; reflexivity.
Qed.

(** C5, amended. For every accident that has rows in the persons table,
    [stats_usagers] has exactly one row, and its [nb_usagers] is the number
    of person rows of that [Num_Acc] whose [id_usager] is not missing: all
    the rows of the group when every one of them has an identifier. *)
Theorem nb_usagers_identifiants usagers (k : Z) :
  groupe us_Num_Acc usagers k ≠ [] →
  ∃ s, s ∈ stats_usagers usagers
    ∧ su_Num_Acc s = k
    ∧ (∀ s', s' ∈ stats_usagers usagers → su_Num_Acc s' = k → s' = s)
    ∧ su_nb_usagers s
      = len (filter (λ u, us_id_usager u ≠ NaN) (groupe us_Num_Acc usagers k))
    ∧ ((∀ u, u ∈ groupe us_Num_Acc usagers k → us_id_usager u ≠ NaN) →
       su_nb_usagers s = len (groupe us_Num_Acc usagers k)).
Proof.
  intros Hne. exists (agg_usagers k (groupe us_Num_Acc usagers k)).
  assert (su_nb_usagers (agg_usagers k (groupe us_Num_Acc usagers k))
          = len (filter (λ u, us_id_usager u ≠ NaN) (groupe us_Num_Acc usagers k)))
    as Hcount by apply agg_count_colonne.
  repeat split.
  - by apply elem_of_stats_usagers.
  - intros s' [_ Hs']%elem_of_stats_usagers <-. done.
  - done.
  - intros Hid. rewrite Hcount. f_equal. clear Hcount Hne.
    induction (groupe us_Num_Acc usagers k) as [|u g IH]; [done|].
    rewrite filter_cons_True by (apply Hid; left).
    f_equal. apply IH. intros u' Hu'. apply Hid. by right.
Qed.

Lemma nb_usagers_identifiants_temoin :
  ∃ s, s ∈ stats_usagers [usager_exemple 1 (Texte "203 851 184") 4 1 1990;
                          usager_exemple 1 NaN 1 2 1985]
    ∧ su_Num_Acc s = 1 ∧ su_nb_usagers s = 1.
Proof.
  destruct (nb_usagers_identifiants
              [usager_exemple 1 (Texte "203 851 184") 4 1 1990;
               usager_exemple 1 NaN 1 2 1985] 1) as (s & Hs & Hk & _ & Hn & _).
  - vm_compute. discriminate.
  - exists s. split; [exact Hs|]. split; [exact Hk|]. rewrite Hn. reflexivity.
Defined.

(** The last condition of [main_aboutit] says that [stats_usagers] has a
    row. *)
Lemma stats_usagers_non_vide (usagers : list Usager) :
  Exists (λ u, is_Some (us_Num_Acc u)) usagers ↔ stats_usagers usagers ≠ [].
Proof.
  rewrite Exists_exists. split.
  - intros (u & Hu & [k Hk]) Hs.
    assert (groupe us_Num_Acc usagers k ≠ []) as Hne.
    { intros Hnil.
      assert (u ∈ groupe us_Num_Acc usagers k) as Hin
        by (by apply list_elem_of_filter).
      rewrite Hnil in Hin. by apply elem_of_nil in Hin. }
    apply elem_of_groupby_cles in Hne. unfold stats_usagers in Hs.
    apply fmap_nil_inv in Hs. rewrite Hs in Hne. by apply elem_of_nil in Hne.
  - intros Hs. destruct (stats_usagers usagers) as [|s l] eqn:Hl; [done|].
    assert (s ∈ stats_usagers usagers) as Hin by (rewrite Hl; left).
    apply elem_of_stats_usagers in Hin as [Hne _].
    destruct (groupe us_Num_Acc usagers (su_Num_Acc s)) as [|u g] eqn:Hg; [done|].
    assert (u ∈ groupe us_Num_Acc usagers (su_Num_Acc s)) as Hu
      by (rewrite Hg; left).
    apply list_elem_of_filter in Hu as [Hk Hu].
    exists u. split; [done|]. by eexists.
Qed.

(** C4, as stated, fails on an accident without persons: it is in no
    group, so the [else 0] of the reduction never applies to it, and the left
    merge leaves its [pct_hommes] missing.  On the example tables, which
    [main] processes to the end, accident 3 has no person row and its
    [pct_hommes] is missing, not 0. *)
Lemma pct_hommes_sans_usager_contre_exemple :
  main_aboutit caract_exemples lieux_exemples vehicules_exemples usagers_exemples
  ∧ groupe us_Num_Acc usagers_exemples 3 = []
  ∧ (λ r : Accident, (Num_Acc r, pct_hommes r)) <$> df_accident_exemple
    = [(Some 2, Some (1 # 2)%Q); (Some 1, Some (2 # 3)%Q); (Some 3, None)].
Proof.
  split; [refine (bool_decide_unpack _ _); vm_compute; exact I|].
  split; reflexivity.
Qed.

(** C4, amended. For an accident that has person rows, [pct_hommes] is the
    number of its persons whose sex code is 1 (male) divided by the number of
    its person rows; for an accident without person rows it is missing.  (On
    an empty column the reduction itself would give 0.) *)
Theorem pct_hommes_proportion caract lieux vehicules usagers (r : Accident) (k : Z) :
  r ∈ df_accident caract lieux vehicules usagers →
  Num_Acc r = Some k →
  agg_sexe [] = 0%Q
  ∧ (groupe us_Num_Acc usagers k ≠ [] →
     pct_hommes r
     = Some (division (len (filter (λ u, us_sexe u = Some 1)
                                   (groupe us_Num_Acc usagers k)))
                      (len (groupe us_Num_Acc usagers k))))
  ∧ (groupe us_Num_Acc usagers k = [] → pct_hommes r = None).
Proof.
  intros Hr Hk. apply elem_of_df_accident in Hr as (c & Hc & ->).
  change (ca_Num_Acc c = Some k) in Hk.
  split; [done|]. split.
  - intros Hne. unfold pct_hommes. rewrite (fu_usagers_ligne _ _ _ _ k) by done.
    cbn [fmap option_fmap option_map]. f_equal.
    change (su_pct_hommes (agg_usagers k ?g)) with (agg_sexe (us_sexe <$> g)).
    unfold agg_sexe.
    assert (len (us_sexe <$> groupe us_Num_Acc usagers k)
            = len (groupe us_Num_Acc usagers k)) as Hlen
      by (unfold len; by rewrite length_fmap).
    rewrite Hlen, somme_egal_colonne. rewrite decide_True; [done|].
    unfold len. destruct (groupe us_Num_Acc usagers k); [done | cbn [length]; lia].
  - intros Hnil. unfold pct_hommes.
    cbn [ligne_accident acc_gravite ajouter_gravite gr_fusion fu_usagers].
    rewrite Hk.
    unfold stats_du_groupe. change (Some k ≫= ?f) with (f k). cbv beta.
    by rewrite decide_True.
Qed.

Lemma pct_hommes_proportion_temoin :
  ∃ r : Accident,
    r ∈ df_accident_exemple ∧ Num_Acc r = Some 1
    ∧ pct_hommes r = Some (2 # 3)%Q.
Proof.
  exists (ligne_accident lieux_exemples vehicules_exemples usagers_exemples (caract_exemple 1)).
  split; [exact ligne_exemple_1|]. split; [reflexivity|].
  refine (eq_trans (proj1 (proj2 (pct_hommes_proportion _ _ _ _ _ 1
                                    ligne_exemple_1 eq_refl)) _) _).
  - vm_compute. discriminate.
  - reflexivity.
Defined.

(** *** Mean age *)

Lemma ages_valides_naissances (g : list Usager) :
  ages_valides g
  = (λ b, 2024 - b)
      <$> omap id (filter (λ v, v ≠ Some (-1)) (us_an_nais <$> g)).
Proof.
  unfold ages_valides. induction g as [|u g IH]; [done|].
  rewrite fmap_cons, filter_cons. cbn [omap list_omap].
  unfold age, calculer_age at 1.
  destruct (us_an_nais u) as [b|].
  - destruct (decide (b = -1)) as [->|Hb].
    + rewrite decide_False by (by intros []). exact IH.
    + rewrite decide_True by congruence. cbn. f_equal. exact IH.
  - rewrite decide_True by done. exact IH.
Qed.

Lemma somme_ages (l : list Z) :
  somme ((λ b, 2024 - b) <$> l) = 2024 * len l - somme l.
Proof.
  unfold somme, len. induction l as [|b l IH]; [done|].
  cbn [fmap list_fmap foldr length]. fold (fmap (M:=list) (λ b, 2024 - b) l).
  rewrite IH. lia.
Qed.

Lemma division_ages (s n : Z) :
  0 < n →
  (inject_Z 2024 - division s n == division (2024 * n - s) n)%Q.
Proof.
  intros Hn. unfold division, Z.sub.
  rewrite inject_Z_plus, inject_Z_mult, inject_Z_opp. field.
  intros H0. unfold Qeq in H0. cbn in H0. lia.
Qed.

(** What the [an_nais] reduction returns on a group. *)
Lemma agg_an_nais_ages (g : list Usager) :
  (ages_valides g = [] → agg_an_nais (us_an_nais <$> g) = None)
  ∧ (ages_valides g ≠ [] →
     ∃ q, agg_an_nais (us_an_nais <$> g) = Some q
          ∧ (q == division (somme (ages_valides g)) (len (ages_valides g)))%Q).
Proof.
  rewrite ages_valides_naissances. unfold agg_an_nais, mean.
  set (valides := filter (λ v, v ≠ Some (-1)) (us_an_nais <$> g)).
  split.
  - intros Hnil%fmap_nil_inv. rewrite (decide_True _ _ Hnil).
    by case_decide.
  - intros Hne. assert (omap id valides ≠ []) as Hvals.
    { intros Hnil. apply Hne. by rewrite Hnil. }
    assert (len valides > 0) as Hlen.
    { unfold len. destruct valides; [done | cbn [length]; lia]. }
    rewrite (decide_True _ _ Hlen), (decide_False _ _ Hvals).
    eexists. split; [reflexivity|].
    rewrite somme_ages.
    assert (len ((λ b, 2024 - b) <$> omap id valides) = len (omap id valides))
      as -> by (unfold len; by rewrite length_fmap).
    apply division_ages. unfold len.
    destruct (omap id valides); [done | cbn [length]; lia].
Qed.

Lemma ages_valides_sans_sentinelle (g1 g2 : list Usager) (u : Usager) :
  us_an_nais u = Some (-1) →
  ages_valides (g1 ++ u :: g2) = ages_valides (g1 ++ g2).
Proof.
  intros Hu. unfold ages_valides. rewrite !omap_app. f_equal.
  cbn [omap list_omap]. by rewrite Hu.
Qed.

Lemma agg_count_avec_identifiant (g1 g2 : list Usager) (u : Usager) :
  us_id_usager u ≠ NaN →
  agg_count (us_id_usager <$> (g1 ++ u :: g2))
  = 1 + agg_count (us_id_usager <$> (g1 ++ g2)).
Proof.
  intros Hu. unfold agg_count.
  rewrite !fmap_app, fmap_cons, !filter_app, filter_cons_True by done.
  rewrite !length_app. cbn [length]. lia.
Qed.

(** C3, as stated, fails in its last part: a person whose birth year is
    the sentinel and whose [id_usager] is empty is left out of the mean and
    is not counted in [nb_usagers] either.  On these tables, which [main]
    processes to the end, accident 1 has three person rows, one of them with
    the sentinel birth year and no identifier: its mean age is that of the
    two others and its [nb_usagers] is 2. *)
Lemma age_moyen_sentinelle_contre_exemple :
  main_aboutit caract_exemples lieux_exemples vehicules_exemples
    usagers_sans_identifiant
  ∧ (λ u, (us_id_usager u, us_an_nais u))
      <$> groupe us_Num_Acc usagers_sans_identifiant 1
    = [(Texte "203 851 184", Some 1975); (NaN, Some (-1));
       (Texte "203 851 186", Some 1981)]
  ∧ ∃ q1 q2,
      (λ r : Accident, (Num_Acc r, age_moyen r, nb_usagers r))
        <$> df_accident caract_exemples lieux_exemples vehicules_exemples
              usagers_sans_identifiant
      = [(Some 2, Some q2, Some 2); (Some 1, Some q1, Some 2);
         (Some 3, None, None)]
      ∧ (q1 == 46 # 1)%Q ∧ (q2 == 29 # 1)%Q.
Proof.
  split; [refine (bool_decide_unpack _ _); vm_compute; exact I|].
  split; [reflexivity|].
  do 2 eexists. split; [reflexivity|]. split; reflexivity.
Qed.

(** C3, amended. For an accident with at least one person row,
    [age_moyen] is the mean of [2024 - birth year] over its persons with a
    valid birth year (neither missing nor -1), and is missing when there is
    no such person.  A person whose birth year is -1 does not enter that
    mean, and is counted in [nb_usagers] whenever its [id_usager] is not
    missing. *)
Theorem age_moyen_ages_valides caract lieux vehicules usagers (r : Accident) (k : Z) :
  r ∈ df_accident caract lieux vehicules usagers →
  Num_Acc r = Some k →
  groupe us_Num_Acc usagers k ≠ [] →
  (ages_valides (groupe us_Num_Acc usagers k) = [] → age_moyen r = None)
  ∧ (ages_valides (groupe us_Num_Acc usagers k) ≠ [] →
     ∃ q, age_moyen r = Some q
          ∧ (q == division (somme (ages_valides (groupe us_Num_Acc usagers k)))
                           (len (ages_valides (groupe us_Num_Acc usagers k))))%Q)
  ∧ (∀ g1 u g2,
       groupe us_Num_Acc usagers k = g1 ++ u :: g2 →
       us_an_nais u = Some (-1) →
       ages_valides (groupe us_Num_Acc usagers k) = ages_valides (g1 ++ g2)
       ∧ (us_id_usager u ≠ NaN →
          nb_usagers r
          = Some (1 + len (filter (λ u', us_id_usager u' ≠ NaN) (g1 ++ g2))))).
Proof.
  intros Hr Hk Hne. apply elem_of_df_accident in Hr as (c & Hc & ->).
  change (ca_Num_Acc c = Some k) in Hk.
  unfold age_moyen, nb_usagers. rewrite (fu_usagers_ligne _ _ _ _ k) by done.
  change (Some ?s ≫= su_age_moyen) with (su_age_moyen s).
  change (su_age_moyen (agg_usagers k ?g)) with (agg_an_nais (us_an_nais <$> g)).
  change (su_nb_usagers <$> Some (agg_usagers k ?g))
    with (Some (agg_count (us_id_usager <$> g))).
  destruct (agg_an_nais_ages (groupe us_Num_Acc usagers k)) as [Hvide Hmoy].
  split; [done|]. split; [done|].
  intros g1 u g2 -> Hu. split.
  - by apply ages_valides_sans_sentinelle.
  - intros Hid. f_equal.
    rewrite <- agg_count_colonne. by apply agg_count_avec_identifiant.
Qed.

Lemma age_moyen_ages_valides_temoin :
  ∃ r : Accident,
    r ∈ df_accident_exemple ∧ Num_Acc r = Some 1
    ∧ (∃ q, age_moyen r = Some q ∧ (q == 46 # 1)%Q)
    ∧ nb_usagers r = Some 3.
Proof.
  exists (ligne_accident lieux_exemples vehicules_exemples usagers_exemples (caract_exemple 1)).
  split; [exact ligne_exemple_1|]. split; [reflexivity|].
  destruct (age_moyen_ages_valides _ _ _ _ _ 1 ligne_exemple_1 eq_refl)
    as (_ & Hmoy & Hcompte).
  - vm_compute. discriminate.
  - split.
    + destruct Hmoy as (q & Hq & Heq); [vm_compute; discriminate|].
      exists q. split; [exact Hq|]. rewrite Heq. reflexivity.
    + refine (proj2 (Hcompte
        [usager_exemple 1 (Texte "203 851 184") 2 1 1975]
        (usager_exemple 1 (Texte "203 851 185") 4 2 (-1))
        [usager_exemple 1 (Texte "203 851 186") 1 1 1981] _ _) _);
        [reflexivity | reflexivity | discriminate].
Defined.

(** ** Code dictionary and enrichment *)

Lemma append_vide_r (s t : string) : s +:+ t = s → t = "".
Proof. induction s as [|a s IH]; [done|]. cbn. intros [= H]. auto. Qed.

Lemma code_desc_distincts (s : string) : s +:+ "_code" ≠ s +:+ "_desc".
Proof. induction s as [|a s IH]; [done|]. cbn. intros [= H]. auto. Qed.

Lemma desc_cell_valeurs (mapping : list (Z * string)) (v : valeur) :
  desc_cell mapping v
  = Texte match v with
          | Entier z => default NON_RENSEIGNE (dict_get mapping z)
          | NaN | Texte _ => NON_RENSEIGNE
          end.
Proof. by destruct v. Qed.

Lemma dict_get_Some (d : list (Z * string)) (k : Z) (v : string) :
  NoDup d.*1 → (k, v) ∈ d → dict_get d k = Some v.
Proof.
  induction d as [|[k' v'] d IH]; intros Hnd Hin.
  - by apply elem_of_nil in Hin.
  - rewrite fmap_cons in Hnd. apply NoDup_cons in Hnd as [Hk' Hnd].
    cbn [dict_get]. apply elem_of_cons in Hin as [[= <- <-]|Hin].
    + by rewrite decide_True.
    + rewrite decide_False; [by apply IH|].
      intros ->. apply Hk'. apply list_elem_of_fmap. by exists (k, v).
Qed.

Lemma dict_get_None (d : list (Z * string)) (k : Z) :
  k ∉ d.*1 → dict_get d k = None.
Proof.
  induction d as [|[k' v'] d IH]; [done|].
  rewrite fmap_cons, not_elem_of_cons. intros [Hk Hd].
  cbn [dict_get]. rewrite decide_False by (cbn in Hk; congruence). by apply IH.
Qed.

(** C6. If the frame has the column [colonne], [enrichir_colonne] leaves
    it and every other column as they are, adds [colonne_code] holding the
    same cells, and adds [colonne_desc] whose cell in each row is the label
    that the dictionary pairs with that row's code (the dictionary, like any
    Python dict, holding each key once), or "Non renseigné" when the code is
    missing, is not a key of the dictionary, or is not a number; reading
    [colonne_code] back therefore returns the raw column.  If the frame lacks
    the column it is returned unchanged. *)
Theorem enrichir_colonne_aller_retour (df : DataFrame) (colonne : string)
    (mapping : list (Z * string)) :
  (df !! colonne = None → enrichir_colonne df colonne mapping = df)
  ∧ ∀ c, df !! colonne = Some c →
      enrichir_colonne df colonne mapping !! (colonne +:+ "_code") = Some c
      ∧ enrichir_colonne df colonne mapping !! colonne = Some c
      ∧ (∀ autre, autre ≠ colonne +:+ "_code" → autre ≠ colonne +:+ "_desc" →
           enrichir_colonne df colonne mapping !! autre = df !! autre)
      ∧ ∃ d, enrichir_colonne df colonne mapping !! (colonne +:+ "_desc") = Some d
          ∧ length d = length c
          ∧ (NoDup mapping.*1 →
             ∀ i z l, c !! i = Some (Entier z) → (z, l) ∈ mapping →
               d !! i = Some (Texte l))
          ∧ (∀ i z, c !! i = Some (Entier z) → z ∉ mapping.*1 →
               d !! i = Some (Texte NON_RENSEIGNE))
          ∧ (∀ i, c !! i = Some NaN → d !! i = Some (Texte NON_RENSEIGNE))
          ∧ (∀ i s, c !! i = Some (Texte s) → d !! i = Some (Texte NON_RENSEIGNE)).
Proof.
  unfold enrichir_colonne. split; [by intros ->|]. intros c Hc. rewrite Hc.
  assert (colonne +:+ "_code" ≠ colonne) as Hcode
    by (by intros ?%append_vide_r).
  assert (colonne +:+ "_desc" ≠ colonne) as Hdesc
    by (by intros ?%append_vide_r).
  pose proof (code_desc_distincts colonne) as Hcd.
  split; [|split; [|split]].
  - rewrite lookup_insert_ne by done. apply lookup_insert_eq.
  - by rewrite !lookup_insert_ne by done.
  - intros autre H1 H2. by rewrite !lookup_insert_ne by done.
  - exists (desc_cell mapping <$> c). split; [apply lookup_insert_eq|].
    split; [apply length_fmap|].
    split; [|split; [|split]].
    + intros Hnd i z l Hi Hl. rewrite list_lookup_fmap, Hi.
      cbn [fmap option_fmap option_map]. rewrite desc_cell_valeurs.
      by rewrite (dict_get_Some mapping z l Hnd Hl).
    + intros i z Hi Hz. rewrite list_lookup_fmap, Hi.
      cbn [fmap option_fmap option_map]. rewrite desc_cell_valeurs.
      by rewrite (dict_get_None mapping z Hz).
    + intros i Hi. rewrite list_lookup_fmap, Hi.
      cbn [fmap option_fmap option_map]. by rewrite desc_cell_valeurs.
    + intros i t Hi. rewrite list_lookup_fmap, Hi.
      cbn [fmap option_fmap option_map]. by rewrite desc_cell_valeurs.
Qed.

Lemma enrichir_colonne_aller_retour_temoin :
  let mapping :=
    [(1, "Indemne"); (2, "Tué"); (3, "Blessé hospitalisé"); (4, "Blessé léger")] in
  let df :=
    enrichir_colonne {[ "grav" := [Entier 2; NaN; Entier 7; Texte "x"; Entier 4] ]}
      "grav" mapping in
  ("grav", mapping) ∈ MAPPINGS
  ∧ df !! "grav_code" = Some [Entier 2; NaN; Entier 7; Texte "x"; Entier 4]
  ∧ ∃ d, df !! "grav_desc" = Some d
      ∧ d !! 0%nat = Some (Texte "Tué")
      ∧ d !! 1%nat = Some (Texte "Non renseigné")
      ∧ d !! 2%nat = Some (Texte "Non renseigné")
      ∧ d !! 3%nat = Some (Texte "Non renseigné")
      ∧ d !! 4%nat = Some (Texte "Blessé léger").
Proof.
  cbn zeta. split; [refine (bool_decide_unpack _ _); vm_compute; exact I|].
  assert (({[ "grav" := [Entier 2; NaN; Entier 7; Texte "x"; Entier 4] ]}
             : DataFrame) !! "grav"
          = Some [Entier 2; NaN; Entier 7; Texte "x"; Entier 4]) as Hc
    by reflexivity.
  destruct (proj2 (enrichir_colonne_aller_retour
    {[ "grav" := [Entier 2; NaN; Entier 7; Texte "x"; Entier 4] ]} "grav"
    [(1, "Indemne"); (2, "Tué"); (3, "Blessé hospitalisé"); (4, "Blessé léger")])
    [Entier 2; NaN; Entier 7; Texte "x"; Entier 4] Hc)
    as (Hcode & _ & _ & d & Hd & _ & Hlabel & Habsent & Hnan & Htexte).
  split; [exact Hcode|]. exists d. split; [exact Hd|].
  assert (NoDup [(1, "Indemne"); (2, "Tué"); (3, "Blessé hospitalisé");
                 (4, "Blessé léger")].*1) as Hnd
    by (refine (bool_decide_unpack _ _); vm_compute; exact I).
  split; [|split; [|split; [|split]]].
  - apply (Hlabel Hnd 0%nat 2 "Tué"); [reflexivity|].
    refine (bool_decide_unpack _ _); vm_compute; exact I.
  - apply (Hnan 1%nat). reflexivity.
  - apply (Habsent 2%nat 7); [reflexivity|].
    refine (bool_decide_unpack _ _); vm_compute; exact I.
  - apply (Htexte 3%nat "x"). reflexivity.
  - apply (Hlabel Hnd 4%nat 4 "Blessé léger"); [reflexivity|].
    refine (bool_decide_unpack _ _); vm_compute; exact I.
Defined.

(** *** The loop over [MAPPINGS] *)

Lemma MAPPINGS_keys_NoDup :
  NoDup MAPPINGS.*1 ∧ Forall (λ cm, NoDup cm.2.*1) MAPPINGS.
Proof. split; refine (bool_decide_unpack _ _); vm_compute; exact I. Qed.

(** No coded column is named like a derived column, and the derived names
    are pairwise distinct: one enrichment never overwrites the input or the
    output of another. *)
Lemma MAPPINGS_noms_enrichis :
  NoDup (noms_enrichis MAPPINGS)
  ∧ Forall (λ cm, cm.1 ∉ noms_enrichis MAPPINGS) MAPPINGS.
Proof. split; refine (bool_decide_unpack _ _); vm_compute; exact I. Qed.

Lemma noms_enrichis_app ms1 ms2 :
  noms_enrichis (ms1 ++ ms2) = noms_enrichis ms1 ++ noms_enrichis ms2.
Proof. apply bind_app. Qed.

Lemma enrichir_colonne_autre (df : DataFrame) colonne mapping (nom : string) :
  nom ≠ colonne +:+ "_code" → nom ≠ colonne +:+ "_desc" →
  enrichir_colonne df colonne mapping !! nom = df !! nom.
Proof.
  intros H1 H2. unfold enrichir_colonne.
  destruct (df !! colonne); [|done]. by rewrite !lookup_insert_ne.
Qed.

Lemma enrichir_colonne_code_desc (df : DataFrame) colonne mapping c :
  df !! colonne = Some c →
  enrichir_colonne df colonne mapping !! (colonne +:+ "_code") = Some c
  ∧ enrichir_colonne df colonne mapping !! (colonne +:+ "_desc")
    = Some (desc_cell mapping <$> c).
Proof.
  intros Hc. unfold enrichir_colonne. rewrite Hc. split.
  - rewrite lookup_insert_ne by (symmetry; apply code_desc_distincts).
    apply lookup_insert_eq.
  - apply lookup_insert_eq.
Qed.

Lemma enrichir_liste_autre ms (df : DataFrame) (nom : string) :
  nom ∉ noms_enrichis ms →
  foldl (λ d cm, enrichir_colonne d cm.1 cm.2) df ms !! nom = df !! nom.
Proof.
  revert df. induction ms as [|[col m] ms IH]; intros df Hnom; [done|].
  change (noms_enrichis ((col, m) :: ms))
    with ((col +:+ "_code") :: (col +:+ "_desc") :: noms_enrichis ms) in Hnom.
  rewrite !not_elem_of_cons in Hnom. destruct Hnom as (H1 & H2 & Hms).
  cbn [foldl]. rewrite IH by done. by apply enrichir_colonne_autre.
Qed.

(** After the whole loop, each coded column of the frame is still there
    and has its [_code] copy and its [_desc] labels, computed from its own
    dictionary. *)
Lemma enrichir_mappings_colonne (df : DataFrame) colonne mapping c :
  (colonne, mapping) ∈ MAPPINGS →
  df !! colonne = Some c →
  enrichir_mappings df !! colonne = Some c
  ∧ enrichir_mappings df !! (colonne +:+ "_code") = Some c
  ∧ enrichir_mappings df !! (colonne +:+ "_desc") = Some (desc_cell mapping <$> c).
Proof.
  unfold enrichir_mappings.
  destruct MAPPINGS_noms_enrichis as [Hnd Hcols]. revert Hnd Hcols.
  generalize MAPPINGS. intros ms Hnd Hcols Hin Hc.
  assert (colonne ∉ noms_enrichis ms) as Hcol.
  { rewrite Forall_forall in Hcols. apply (Hcols _ Hin). }
  split; [by rewrite enrichir_liste_autre|].
  apply list_elem_of_split in Hin as (ms1 & ms2 & ->).
  rewrite foldl_app. cbn [foldl fst snd].
  rewrite noms_enrichis_app in Hnd, Hcol.
  change (noms_enrichis ((colonne, mapping) :: ms2))
    with ((colonne +:+ "_code") :: (colonne +:+ "_desc") :: noms_enrichis ms2)
    in Hnd, Hcol.
  apply NoDup_app in Hnd as (_ & _ & Hnd).
  apply NoDup_cons in Hnd as [Hcode Hnd]. apply NoDup_cons in Hnd as [Hdesc _].
  rewrite not_elem_of_cons in Hcode. destruct Hcode as [Hcd Hcode].
  assert (foldl (λ d cm, enrichir_colonne d cm.1 cm.2) df ms1 !! colonne = Some c)
    as Hc1.
  { rewrite enrichir_liste_autre; [done|]. intros Hin. apply Hcol.
    apply elem_of_app. by left. }
  rewrite !enrichir_liste_autre by done.
  by apply enrichir_colonne_code_desc.
Qed.

(** ** Time of day *)

(** C8. Whatever [int] reads: a missing time gives "Non renseigné"; a time
    whose text before the first colon [int] rejects gives "Non renseigné";
    and when [int] reads the hour [h], the result is "Matin" for
    [6 ≤ h < 12], "Après-midi" for [12 ≤ h < 18], "Soirée" for [18 ≤ h < 22]
    and "Nuit" for every other [h].  The function is total: no input makes
    it fail. *)
Theorem determiner_periode_journee_buckets (int_py : string → option Z) :
  determiner_periode_journee int_py None = NON_RENSEIGNE
  ∧ (∀ s, int_py (avant_deux_points s) = None →
       determiner_periode_journee int_py (Some s) = NON_RENSEIGNE)
  ∧ (∀ s h, int_py (avant_deux_points s) = Some h →
       (6 ≤ h < 12 → determiner_periode_journee int_py (Some s) = "Matin")
       ∧ (12 ≤ h < 18 → determiner_periode_journee int_py (Some s) = "Après-midi")
       ∧ (18 ≤ h < 22 → determiner_periode_journee int_py (Some s) = "Soirée")
       ∧ (h < 6 ∨ 22 ≤ h → determiner_periode_journee int_py (Some s) = "Nuit")).
Proof.
  split; [done|]. split.
  - intros s Hs. unfold determiner_periode_journee. by rewrite Hs.
  - intros s h Hs. unfold determiner_periode_journee. rewrite Hs.
    repeat split; intros Hh; repeat case_bool_decide; first [done | lia].
Qed.

Lemma determiner_periode_journee_buckets_temoin :
  determiner_periode_journee int_ascii (Some "17:59") = "Après-midi"
  ∧ determiner_periode_journee int_ascii (Some "18:00") = "Soirée"
  ∧ determiner_periode_journee int_ascii (Some "5h") = NON_RENSEIGNE.
Proof.
  pose proof (determiner_periode_journee_buckets int_ascii) as (_ & Hnon & Hh).
  split; [|split].
  - apply (Hh "17:59" 17); [reflexivity | lia].
  - apply (Hh "18:00" 18); [reflexivity | lia].
  - apply (Hnon "5h"). reflexivity.
Defined.

(** On a time written as two digits, a colon and anything, [int_ascii]
    reads the hour that the digits spell. *)
Lemma int_ascii_deux_chiffres (a b : ascii) (d e : Z) (reste : string) :
  chiffre a = Some d → chiffre b = Some e →
  int_ascii (avant_deux_points (String a (String b (String ":" reste))))
  = Some (10 * d + e).
Proof.
  intros Ha Hb.
  assert (a ≠ ":"%char ∧ b ≠ ":"%char) as [Ha' Hb'] by (split; by intros ->).
  assert (est_espace a = false ∧ a ≠ "-"%char ∧ a ≠ "+"%char) as (Hesp & Hm & Hp).
  { repeat split; try (by intros ->).
    unfold chiffre in Ha. case_bool_decide as Hd; [|done].
    unfold est_espace. apply bool_decide_eq_false. lia. }
  cbn [avant_deux_points]. rewrite !decide_False by done.
  rewrite decide_True by done.
  unfold int_ascii. cbn [sauter_espaces]. rewrite Hesp.
  assert (lire_chiffres false 0 (String a (String b "")) = Some (10 * d + e)) as Hlire.
  { cbn [lire_chiffres]. rewrite Ha, Hb. f_equal; lia. }
  destruct a as [[] [] [] [] [] [] [] []]; try done.
Qed.

(** ** Age buckets *)

(** C10. The age buckets are the intervals (0,18], (18,25], (25,35],
    (35,45], (45,55], (55,65], (65,100]: an age gets the label of the interval
    it lies in, each upper edge included and each lower edge excluded; an age
    of 0 or less, or above 100, or missing, gets no bucket.  So age 18 is
    "0-17", and a person born in the reference year has none. *)
Theorem tranche_age_intervalles :
  (∀ a, tranche_age (Some a) = Some "0-17" ↔ 0 < a ≤ 18)
  ∧ (∀ a, tranche_age (Some a) = Some "18-24" ↔ 18 < a ≤ 25)
  ∧ (∀ a, tranche_age (Some a) = Some "25-34" ↔ 25 < a ≤ 35)
  ∧ (∀ a, tranche_age (Some a) = Some "35-44" ↔ 35 < a ≤ 45)
  ∧ (∀ a, tranche_age (Some a) = Some "45-54" ↔ 45 < a ≤ 55)
  ∧ (∀ a, tranche_age (Some a) = Some "55-64" ↔ 55 < a ≤ 65)
  ∧ (∀ a, tranche_age (Some a) = Some "65+" ↔ 65 < a ≤ 100)
  ∧ (∀ a, tranche_age (Some a) = None ↔ a ≤ 0 ∨ 100 < a)
  ∧ tranche_age None = None
  ∧ tranche_age (age (Some 2024)) = None
  ∧ tranche_age (Some 18) = Some "0-17"
  ∧ tranche_age (Some 100) = Some "65+".
Proof.
  assert (∀ a, tranche_age (Some a)
               = if decide (a ≤ 0) then None
                 else if decide (a ≤ 18) then Some "0-17"
                 else if decide (a ≤ 25) then Some "18-24"
                 else if decide (a ≤ 35) then Some "25-34"
                 else if decide (a ≤ 45) then Some "35-44"
                 else if decide (a ≤ 55) then Some "45-54"
                 else if decide (a ≤ 65) then Some "55-64"
                 else if decide (a ≤ 100) then Some "65+"
                 else None) as Hcut.
  { intros a. unfold tranche_age, cut. cbn [searchsorted_left].
    repeat (destruct (decide (_ < a)); cbn [searchsorted_left]);
      repeat (destruct (decide (a ≤ _))); first [lia | reflexivity]. }
  repeat match goal with |- _ ∧ _ => split end; try reflexivity;
    intros a; rewrite Hcut; repeat case_decide; split; intros;
    first [done | lia].
Qed.

Lemma tranche_age_intervalles_temoin :
  tranche_age (age (Some 2006)) = Some "0-17"
  ∧ tranche_age (age (Some 2005)) = Some "18-24"
  ∧ tranche_age (age (Some 1923)) = None.
Proof.
  destruct tranche_age_intervalles as (H17 & H24 & _ & _ & _ & _ & _ & Hnul & _).
  split; [|split].
  - apply (H17 18). lia.
  - apply (H24 19). lia.
  - apply (Hnul 101). lia.
Defined.


(** On the accident-grain table: [nb_usagers] of an accident that has
    person rows. *)
Lemma nb_usagers_ligne caract lieux vehicules usagers (r : Accident) (k : Z) :
  r ∈ df_accident caract lieux vehicules usagers →
  Num_Acc r = Some k →
  groupe us_Num_Acc usagers k ≠ [] →
  nb_usagers r
  = Some (len (filter (λ u, us_id_usager u ≠ NaN) (groupe us_Num_Acc usagers k))).
Proof.
  intros Hr Hk Hne. apply elem_of_df_accident in Hr as (c & Hc & ->).
  change (ca_Num_Acc c = Some k) in Hk.
  unfold nb_usagers. rewrite (fu_usagers_ligne _ _ _ _ k) by done.
  cbn [fmap option_fmap option_map]. f_equal. apply agg_count_colonne.
Qed.

(** * Worked examples *)

(** The two scenarios of the specification and an accident without
    persons, through the whole aggregation. *)
Example exemple_gravite :
  (λ r : Accident,
     (Num_Acc r, nb_tues r, nb_blesses_hospitalises r, nb_blesses_legers r,
      nb_indemnes r, score_gravite r, categorie_gravite r, accident_mortel r))
    <$> df_accident_exemple
  = [(Some 2, Some 0, Some 2, Some 0, Some 0, Some 60, "Grave", 0);
     (Some 1, Some 1, Some 0, Some 1, Some 1, Some 110, "Mortel", 1);
     (Some 3, None, None, None, None, None, "Matériel uniquement", 0)].
Proof. reflexivity. Qed.

Example exemple_demographie :
  (λ r : Accident,
     (Num_Acc r, nb_usagers r, nb_vehicules r, pct_hommes r, age_moyen r,
      li_vma <$> acc_lieu r))
    <$> df_accident_exemple
  = [(Some 2, Some 2, Some 1, Some (1 # 2)%Q, Some (58 # 2)%Q, Some (Entier 80));
     (Some 1, Some 3, Some 2, Some (2 # 3)%Q, Some (92 # 2)%Q, Some (Entier 50));
     (Some 3, None, None, None, None, None)].
Proof. reflexivity. Qed.

Example exemple_periode_journee :
  determiner_periode_journee int_ascii
    <$> [Some "08:15"; Some "05:59"; Some "06:00"; Some "11:59"; Some "12:00";
         Some "21:59"; Some "22:00"; Some " +1_2 :15"; Some "-3:15"; Some "1230";
         Some ""; Some ":15"; Some "1__2:15"; Some "1 2:15"; Some "midi"; None]
  = ["Matin"; "Nuit"; "Matin"; "Matin"; "Après-midi";
     "Soirée"; "Nuit"; "Après-midi"; "Nuit"; "Nuit";
     NON_RENSEIGNE; NON_RENSEIGNE; NON_RENSEIGNE; NON_RENSEIGNE; NON_RENSEIGNE;
     NON_RENSEIGNE].
Proof. reflexivity. Qed.

Example exemple_tranche_age :
  (λ an_nais, tranche_age (age an_nais))
    <$> [Some 2024; Some 2023; Some 2006; Some 2005; Some 1999; Some 1959;
         Some 1958; Some 1924; Some 1923; Some 2030; Some (-1); None]
  = [None; Some "0-17"; Some "0-17"; Some "18-24"; Some "18-24"; Some "55-64";
     Some "65+"; Some "65+"; None; None; None; None].
Proof. reflexivity. Qed.

Example exemple_enrichissement :
  let df := enrichir_mappings
              {[ "grav" := [Entier 2; Entier 9; NaN];
                 "Num_Acc" := [Entier 1; Entier 1; Entier 2] ]} in
  df !! "grav" = Some [Entier 2; Entier 9; NaN]
  ∧ df !! "grav_code" = Some [Entier 2; Entier 9; NaN]
  ∧ df !! "grav_desc" = Some [Texte "Tué"; Texte NON_RENSEIGNE; Texte NON_RENSEIGNE]
  ∧ df !! "sexe_desc" = None.
Proof. vm_compute. done. Qed.

(** The four injury codes that [agg_grav] counts, in the order of its
    tuple, and the sex and user-category codes of [agg_sexe] and [agg_catu],
    read in the dictionary. *)
Example exemple_codes_comptes :
  let label col code :=
    (head (filter (λ cm, cm.1 = col) MAPPINGS)) ≫= λ cm, dict_get cm.2 code in
  label "grav" <$> [2; 3; 4; 1]
  = [Some "Tué"; Some "Blessé hospitalisé"; Some "Blessé léger"; Some "Indemne"]
  ∧ label "sexe" 1 = Some "Masculin"
  ∧ label "catu" 3 = Some "Piéton".
Proof. vm_compute. done. Qed.

(** * Calendar derivations *)

Example exemple_jour_semaine :
  determiner_jour_semaine (Some 14) (Some 7) (Some 2024) = "Dimanche"
  ∧ determiner_jour_semaine (Some 29) (Some 2) (Some 2024) = "Jeudi"
  ∧ determiner_jour_semaine (Some 29) (Some 2) (Some 2023) = NON_RENSEIGNE
  ∧ determiner_jour_semaine (Some 1) (Some 1) (Some 1) = "Lundi"
  ∧ determiner_jour_semaine (Some 31) (Some 12) (Some 9999) = "Vendredi"
  ∧ determiner_jour_semaine (Some 0) (Some 1) (Some 2024) = NON_RENSEIGNE
  ∧ determiner_jour_semaine None (Some 1) (Some 2024) = NON_RENSEIGNE.
Proof. vm_compute. done. Qed.

Lemma is_leap_spec (year : Z) :
  is_leap year = true ↔ year mod 4 = 0 ∧ (year mod 100 ≠ 0 ∨ year mod 400 = 0).
Proof. unfold is_leap. apply bool_decide_eq_true. Qed.

Lemma days_before_year_succ (year : Z) :
  days_before_year (year + 1)
  = days_before_year year + 365 + (if is_leap year then 1 else 0).
Proof.
  unfold days_before_year, is_leap. replace (year + 1 - 1) with year by lia.
  case_bool_decide as Hl; Z.div_mod_to_equations; lia.
Qed.

Lemma days_before_year_400 (year : Z) :
  days_before_year (year + 400) = days_before_year year + 146097.
Proof. unfold days_before_year. Z.div_mod_to_equations. lia. Qed.

Lemma is_leap_400 (year : Z) : is_leap (year + 400) = is_leap year.
Proof.
  unfold is_leap. apply bool_decide_ext. Z.div_mod_to_equations. lia.
Qed.

Lemma mois_cas (month : Z) :
  1 ≤ month ≤ 12 →
  month = 1 ∨ month = 2 ∨ month = 3 ∨ month = 4 ∨ month = 5 ∨ month = 6
  ∨ month = 7 ∨ month = 8 ∨ month = 9 ∨ month = 10 ∨ month = 11 ∨ month = 12.
Proof. lia. Qed.

Ltac par_mois H :=
  apply mois_cas in H;
  repeat (destruct H as [H|H]; [subst|]); [..|subst].

Ltac calc_mois :=
  repeat match goal with
  | |- context [Z.add (Zpos ?p) 1] =>
      let v := eval vm_compute in (Z.add (Zpos p) 1) in
      change (Z.add (Zpos p) 1) with v
  end.

Lemma days_in_month_valeur (year month : Z) :
  1 ≤ month ≤ 12 →
  days_in_month year month
  = match month with
    | 2 => if is_leap year then 29 else 28
    | 4 | 6 | 9 | 11 => 30
    | _ => 31
    end.
Proof.
  intros Hm. unfold days_in_month. par_mois Hm; by destruct (is_leap year).
Qed.

Lemma days_before_month_valeur (year month : Z) :
  1 ≤ month ≤ 12 →
  days_before_month year month
  = match month with
    | 1 => 0 | 2 => 31 | 3 => 59 | 4 => 90 | 5 => 120 | 6 => 151 | 7 => 181
    | 8 => 212 | 9 => 243 | 10 => 273 | 11 => 304 | _ => 334
    end
    + (if is_leap year then if decide (2 < month) then 1 else 0 else 0).
Proof.
  intros Hm. unfold days_before_month. par_mois Hm; by destruct (is_leap year).
Qed.

Lemma days_in_month_bornes (year month : Z) :
  1 ≤ month ≤ 12 → 28 ≤ days_in_month year month ≤ 31.
Proof.
  intros Hm. rewrite days_in_month_valeur by done.
  par_mois Hm; destruct (is_leap year); lia.
Qed.

Lemma weekday_bornes (year month day : Z) : 0 ≤ weekday year month day < 7.
Proof. unfold weekday. apply Z.mod_pos_bound. lia. Qed.

Lemma lendemain_valide (year month day : Z) :
  date_valide year month day →
  year < MAXYEAR ∨ month < 12 ∨ day < 31 →
  let '(y', m', d') := lendemain year month day in date_valide y' m' d'.
Proof.
  unfold date_valide, lendemain, MINYEAR, MAXYEAR.
  intros (Hy & Hm & Hd) Hfin.
  destruct (decide (day < days_in_month year month)) as [Hlt|Hge]; [lia|].
  destruct (decide (month < 12)) as [Hm12|Hm12].
  - pose proof (days_in_month_bornes year (month + 1)). lia.
  - assert (month = 12) as -> by lia.
    rewrite days_in_month_valeur in Hd, Hge by lia.
    pose proof (days_in_month_bornes (year + 1) 1). lia.
Qed.

Lemma ymd2ord_lendemain (year month day : Z) :
  date_valide year month day →
  let '(y', m', d') := lendemain year month day in
  ymd2ord y' m' d' = ymd2ord year month day + 1.
Proof.
  unfold date_valide, lendemain. intros (Hy & Hm & Hd).
  destruct (decide (day < days_in_month year month)) as [Hlt|Hge].
  { unfold ymd2ord. lia. }
  assert (day = days_in_month year month) as -> by lia. clear Hd Hge.
  destruct (decide (month < 12)) as [Hm12|Hm12].
  - unfold ymd2ord.
    rewrite (days_before_month_valeur year (month + 1)),
      (days_before_month_valeur year month), days_in_month_valeur by lia.
    par_mois Hm; try lia; calc_mois; destruct (is_leap year);
      repeat case_decide; lia.
  - assert (month = 12) as -> by lia.
    unfold ymd2ord. rewrite days_before_year_succ.
    rewrite !days_before_month_valeur, days_in_month_valeur by lia.
    destruct (is_leap year); destruct (is_leap (year + 1));
      repeat case_decide; lia.
Qed.

Lemma weekday_cas (w : Z) :
  0 ≤ w < 7 → w = 0 ∨ w = 1 ∨ w = 2 ∨ w = 3 ∨ w = 4 ∨ w = 5 ∨ w = 6.
Proof. lia. Qed.

Lemma determiner_jour_semaine_valide (year month day : Z) :
  date_valide year month day →
  determiner_jour_semaine (Some day) (Some month) (Some year)
  = default NON_RENSEIGNE (jours !! Z.to_nat (weekday year month day)).
Proof. intros Hv. unfold determiner_jour_semaine. by rewrite decide_True. Qed.

(** X1. [determiner_jour_semaine] returns one of the seven day names
    exactly when the three components are present and form a date that
    [datetime] accepts (year 1..9999, month 1..12, day within the month, leap
    years included); in every other case it returns "Non renseigné". *)
Theorem determiner_jour_semaine_dates (jour mois an : option Z) :
  (determiner_jour_semaine jour mois an ∈ jours ↔
     ∃ y m d, an = Some y ∧ mois = Some m ∧ jour = Some d ∧ date_valide y m d)
  ∧ (determiner_jour_semaine jour mois an = NON_RENSEIGNE ↔
     ¬ ∃ y m d, an = Some y ∧ mois = Some m ∧ jour = Some d ∧ date_valide y m d).
Proof.
  assert (NON_RENSEIGNE ∉ jours) as Hnr.
  { apply (bool_decide_unpack _). vm_compute. exact I. }
  assert (∀ y m d, default NON_RENSEIGNE (jours !! Z.to_nat (weekday y m d)) ∈ jours)
    as Hnom.
  { intros y m d. pose proof (weekday_bornes y m d) as Hw.
    apply weekday_cas in Hw.
    repeat (destruct Hw as [Hw|Hw]; [rewrite Hw; vm_compute; set_solver|]).
    rewrite Hw. vm_compute. set_solver. }
  destruct an as [y|], mois as [m|], jour as [d|];
    try (split; split;
         [ intros Hin; by destruct Hnr
         | intros (? & ? & ? & ? & ? & ? & ?); congruence
         | intros _ (? & ? & ? & ? & ? & ? & ?); congruence
         | done ]).
  destruct (decide (date_valide y m d)) as [Hv|Hv].
  - rewrite determiner_jour_semaine_valide by done. split; split.
    + intros _. by exists y, m, d.
    + intros _. apply Hnom.
    + intros Heq. specialize (Hnom y m d). rewrite Heq in Hnom. by destruct Hnr.
    + intros Hn. destruct Hn. by exists y, m, d.
  - unfold determiner_jour_semaine. rewrite decide_False by done. split; split.
    + intros Hin. by destruct Hnr.
    + intros (? & ? & ? & [= <-] & [= <-] & [= <-] & ?). done.
    + intros _ (? & ? & ? & [= <-] & [= <-] & [= <-] & ?). done.
    + done.
Qed.

Lemma jour_suivant_nom (w : Z) :
  0 ≤ w < 7 →
  jour_suivant (default NON_RENSEIGNE (jours !! Z.to_nat w))
  = default NON_RENSEIGNE (jours !! Z.to_nat ((w + 1) mod 7)).
Proof.
  intros Hw. apply weekday_cas in Hw.
  repeat (destruct Hw as [->|Hw]; [by vm_compute|]). subst. by vm_compute.
Qed.

(** X2. From one valid date to the next day (the month and the year
    rolling over, 29 February in leap years only), the day name returned by
    [determiner_jour_semaine] moves to the following name of the week, Sunday
    being followed by Monday. *)
Theorem determiner_jour_semaine_lendemain (year month day : Z) :
  date_valide year month day →
  year < MAXYEAR ∨ month < 12 ∨ day < 31 →
  let '(y', m', d') := lendemain year month day in
  determiner_jour_semaine (Some d') (Some m') (Some y')
  = jour_suivant (determiner_jour_semaine (Some day) (Some month) (Some year)).
Proof.
  intros Hv Hfin.
  pose proof (lendemain_valide year month day Hv Hfin) as Hv'.
  pose proof (ymd2ord_lendemain year month day Hv) as Hord.
  destruct (lendemain year month day) as [[y' m'] d'].
  rewrite !determiner_jour_semaine_valide by done.
  rewrite jour_suivant_nom by apply weekday_bornes.
  unfold weekday. rewrite Hord. do 3 f_equal.
  Z.div_mod_to_equations. lia.
Qed.

Lemma determiner_jour_semaine_lendemain_temoin :
  determiner_jour_semaine (Some 1) (Some 3) (Some 2024)
  = jour_suivant (determiner_jour_semaine (Some 29) (Some 2) (Some 2024))
  ∧ determiner_jour_semaine (Some 1) (Some 1) (Some 2025)
    = jour_suivant (determiner_jour_semaine (Some 31) (Some 12) (Some 2024)).
Proof.
  split.
  - apply (determiner_jour_semaine_lendemain 2024 2 29); [|lia].
    unfold date_valide, MINYEAR, MAXYEAR. vm_compute. intuition discriminate.
  - apply (determiner_jour_semaine_lendemain 2024 12 31); [|unfold MAXYEAR; lia].
    unfold date_valide, MINYEAR, MAXYEAR. vm_compute. intuition discriminate.
Defined.

Lemma date_valide_400 (year month day : Z) :
  date_valide year month day → year + 400 ≤ MAXYEAR →
  date_valide (year + 400) month day.
Proof.
  unfold date_valide, MINYEAR, MAXYEAR. intros (Hy & Hm & Hd) Hmax.
  rewrite days_in_month_valeur in * by done. rewrite is_leap_400. lia.
Qed.

(** X3. The Gregorian calendar repeats every 400 years: a valid date and
    the same day and month 400 years later, when that year is still at most
    9999, get the same day name. *)
Theorem determiner_jour_semaine_400_ans (year month day : Z) :
  date_valide year month day →
  year + 400 ≤ MAXYEAR →
  determiner_jour_semaine (Some day) (Some month) (Some (year + 400))
  = determiner_jour_semaine (Some day) (Some month) (Some year).
Proof.
  intros Hv Hmax. pose proof (date_valide_400 _ _ _ Hv Hmax) as Hv'.
  rewrite !determiner_jour_semaine_valide by done.
  do 3 f_equal. unfold weekday, ymd2ord.
  destruct Hv as (_ & Hm & _).
  rewrite days_before_year_400, !days_before_month_valeur, is_leap_400 by done.
  Z.div_mod_to_equations. lia.
Qed.

Lemma determiner_jour_semaine_400_ans_temoin :
  determiner_jour_semaine (Some 14) (Some 7) (Some 2424)
  = determiner_jour_semaine (Some 14) (Some 7) (Some 2024).
Proof.
  apply (determiner_jour_semaine_400_ans 2024 7 14); [|unfold MAXYEAR; lia].
  unfold date_valide, MINYEAR, MAXYEAR. vm_compute. intuition discriminate.
Defined.

(** X4. [est_weekend] is 1 exactly for a valid date that falls on a
    Saturday or a Sunday (weekday 5 or 6); a missing or invalid date, whose
    day name is the sentinel, gets 0. *)
Theorem est_weekend_dates (jour mois an : option Z) :
  (est_weekend (determiner_jour_semaine jour mois an) = 1 ↔
     ∃ y m d, an = Some y ∧ mois = Some m ∧ jour = Some d
              ∧ date_valide y m d ∧ 5 ≤ weekday y m d)
  ∧ (est_weekend (determiner_jour_semaine jour mois an) = 0
     ∨ est_weekend (determiner_jour_semaine jour mois an) = 1).
Proof.
  split; [|unfold est_weekend; case_decide; auto].
  assert (est_weekend NON_RENSEIGNE = 0) as Hnr by (by vm_compute).
  destruct an as [y|], mois as [m|], jour as [d|];
    try (cbn [determiner_jour_semaine]; rewrite Hnr; split;
         [done | intros (? & ? & ? & ? & ? & ? & ?); congruence]).
  destruct (decide (date_valide y m d)) as [Hv|Hv].
  - rewrite determiner_jour_semaine_valide by done.
    pose proof (weekday_bornes y m d) as Hw. split.
    + intros Hwe. exists y, m, d. do 4 (split; [done|]).
      apply weekday_cas in Hw.
      repeat (destruct Hw as [Hw|Hw];
              [rewrite Hw in *; first [lia | by vm_compute in Hwe]|]).
      rewrite Hw. lia.
    + intros (? & ? & ? & [= <-] & [= <-] & [= <-] & _ & H5).
      assert (weekday y m d = 5 ∨ weekday y m d = 6) as [->| ->] by lia;
        by vm_compute.
  - unfold determiner_jour_semaine. rewrite decide_False by done. rewrite Hnr.
    split; [done|].
    intros (? & ? & ? & [= <-] & [= <-] & [= <-] & ? & _). done.
Qed.

(** * Month and quarter columns *)

Lemma astype_int_Some (col : list (option Z)) (vals : list Z) :
  astype_int col = Some vals ↔ col = Some <$> vals.
Proof.
  unfold astype_int. rewrite mapM_Some. split.
  - induction 1 as [|x y l k Hxy _ IH]; [done|]. cbn in Hxy. by subst.
  - intros ->. induction vals; constructor; done.
Qed.

Lemma astype_int_None (col : list (option Z)) :
  astype_int col = None ↔ None ∈ col.
Proof.
  unfold astype_int. rewrite mapM_None, Exists_exists. split.
  - intros (x & Hx & Hid). cbn in Hid. by subst.
  - intros Hin. by exists None.
Qed.

Lemma trimestre_bornes (mois : Z) :
  3 * trimestre mois - 2 ≤ mois ≤ 3 * trimestre mois
  ∧ (1 ≤ trimestre mois ≤ 4 ↔ 1 ≤ mois ≤ 12).
Proof. unfold trimestre. Z.div_mod_to_equations. lia. Qed.


(** X6. The month-name column, like the quarter column, exists exactly
    when no month is missing.  A month in 1..12 gets a name; any other
    integer month gets a missing cell, not the "Non renseigné" label that the
    coded columns use. *)
Theorem colonne_mois_nom_noms (mois : list (option Z)) :
  (colonne_mois_nom mois = None ↔ None ∈ mois)
  ∧ ∀ noms, colonne_mois_nom mois = Some noms →
      length noms = length mois
      ∧ ∀ i m, mois !! i = Some (Some m) →
          (1 ≤ m ≤ 12 → ∃ nom, noms !! i = Some (Some nom) ∧ nom ≠ NON_RENSEIGNE)
          ∧ (¬ 1 ≤ m ≤ 12 → noms !! i = Some None).
Proof.
  unfold colonne_mois_nom. split.
  - rewrite fmap_None. apply astype_int_None.
  - intros noms (ms & Hms & ->)%fmap_Some.
    apply astype_int_Some in Hms as ->. split; [by rewrite !length_fmap|].
    intros i m Hi. rewrite list_lookup_fmap in Hi.
    destruct (ms !! i) as [m'|] eqn:Hm'; [|done]. injection Hi as ->.
    rewrite list_lookup_fmap, Hm'. cbn [fmap option_fmap option_map]. split.
    + intros Hm. apply mois_cas in Hm.
      repeat (destruct Hm as [->|Hm]; [eexists; split; [reflexivity | by vm_compute]|]).
      subst. eexists; split; [reflexivity | by vm_compute].
    + intros Hm. f_equal. unfold mois_noms. cbn [dict_get].
      repeat (rewrite decide_False by lia). done.
Qed.

(** X7. Reading the month names back into numbers, as the dashboard does
    for sorting: the number is recovered for nine months, and is missing for
    February, August and December, whose names the pipeline writes with
    accents and the dashboard's table without. *)
Theorem mois_num_mois_noms (m : Z) :
  1 ≤ m ≤ 12 →
  mois_num (dict_get mois_noms m)
  = if decide (m = 2 ∨ m = 8 ∨ m = 12) then None else Some m.
Proof.
  intros Hm. apply mois_cas in Hm.
  repeat (destruct Hm as [->|Hm]; [by vm_compute|]). subst. by vm_compute.
Qed.

Lemma mois_num_mois_noms_temoin :
  mois_num (dict_get mois_noms 7) = Some 7
  ∧ mois_num (dict_get mois_noms 8) = None.
Proof.
  split.
  - exact (mois_num_mois_noms 7 ltac:(lia)).
  - exact (mois_num_mois_noms 8 ltac:(lia)).
Defined.

(** * Person and vehicle counts *)

Lemma len_nonneg {A} (l : list A) : 0 ≤ len l.
Proof. unfold len. lia. Qed.

Lemma len_filter_le {A} (P : A → Prop) `{!∀ x, Decision (P x)} (l : list A) :
  len (filter P l) ≤ len l.
Proof. unfold len. pose proof (length_filter P l). lia. Qed.

Lemma len_cons {A} (x : A) (l : list A) : len (x :: l) = 1 + len l.
Proof. unfold len. cbn [length]. lia. Qed.

(** X8. On the row of an accident that has person rows, each count is the
    number of its persons with the code the dictionary names: [nb_tues]
    counts injury code 2 (killed), [nb_blesses_hospitalises] code 3,
    [nb_blesses_legers] code 4, [nb_indemnes] code 1, and [nb_pietons] counts
    user category 3 (pedestrian). *)
Theorem compteurs_par_code caract lieux vehicules usagers (r : Accident) (k : Z) :
  r ∈ df_accident caract lieux vehicules usagers →
  Num_Acc r = Some k →
  groupe us_Num_Acc usagers k ≠ [] →
  nb_tues r
    = Some (len (filter (λ u, us_grav u = Some 2) (groupe us_Num_Acc usagers k)))
  ∧ nb_blesses_hospitalises r
    = Some (len (filter (λ u, us_grav u = Some 3) (groupe us_Num_Acc usagers k)))
  ∧ nb_blesses_legers r
    = Some (len (filter (λ u, us_grav u = Some 4) (groupe us_Num_Acc usagers k)))
  ∧ nb_indemnes r
    = Some (len (filter (λ u, us_grav u = Some 1) (groupe us_Num_Acc usagers k)))
  ∧ nb_pietons r
    = Some (len (filter (λ u, us_catu u = Some 3) (groupe us_Num_Acc usagers k))).
Proof.
  intros Hr Hk Hne. apply elem_of_df_accident in Hr as (c & Hc & ->).
  change (ca_Num_Acc c = Some k) in Hk.
  unfold nb_tues, nb_blesses_hospitalises, nb_blesses_legers, nb_indemnes,
    nb_pietons.
  rewrite (fu_usagers_ligne _ _ _ _ k) by done.
  cbn [fmap option_fmap option_map].
  repeat split; f_equal; apply somme_egal_colonne.
Qed.

Lemma compteurs_par_code_temoin :
  ∃ r : Accident,
    r ∈ df_accident_exemple ∧ Num_Acc r = Some 1
    ∧ nb_tues r = Some 1 ∧ nb_indemnes r = Some 1 ∧ nb_pietons r = Some 0.
Proof.
  exists (ligne_accident lieux_exemples vehicules_exemples usagers_exemples
            (caract_exemple 1)).
  split; [exact ligne_exemple_1|]. split; [reflexivity|].
  destruct (compteurs_par_code _ _ _ _ _ 1 ligne_exemple_1 eq_refl)
    as (Ht & _ & _ & Hi & Hp).
  - vm_compute. discriminate.
  - split; [rewrite Ht; reflexivity|].
    split; [rewrite Hi; reflexivity | rewrite Hp; reflexivity].
Defined.

Lemma len_filter_codes (g : list Usager) :
  len (filter (λ u, us_grav u = Some 2) g)
  + len (filter (λ u, us_grav u = Some 3) g)
  + len (filter (λ u, us_grav u = Some 4) g)
  + len (filter (λ u, us_grav u = Some 1) g)
  = len (filter (λ u, us_grav u ∈ [Some 1; Some 2; Some 3; Some 4]) g).
Proof.
  induction g as [|u g IH]; [done|].
  rewrite !filter_cons.
  destruct (us_grav u) as [c|] eqn:Hc.
  - destruct (decide (c = 1)) as [->|H1]; [|destruct (decide (c = 2)) as [->|H2];
      [|destruct (decide (c = 3)) as [->|H3]; [|destruct (decide (c = 4)) as [->|H4]]]].
    + rewrite decide_False, decide_False, decide_False, decide_True, decide_True
        by (try done; set_solver). rewrite !len_cons. lia.
    + rewrite decide_True, decide_False, decide_False, decide_False, decide_True
        by (try done; set_solver). rewrite !len_cons. lia.
    + rewrite decide_False, decide_True, decide_False, decide_False, decide_True
        by (try done; set_solver). rewrite !len_cons. lia.
    + rewrite decide_False, decide_False, decide_True, decide_False, decide_True
        by (try done; set_solver). rewrite !len_cons. lia.
    + rewrite decide_False, decide_False, decide_False, decide_False, decide_False;
        [exact IH|..]; try congruence.
      rewrite !elem_of_cons, elem_of_nil. intros [|[|[|[|]]]]; congruence.
  - rewrite !decide_False; [exact IH|..]; try done.
    rewrite !elem_of_cons, elem_of_nil. intros [|[|[|[|]]]]; congruence.
Qed.

Lemma compteurs_gravite_ligne caract lieux vehicules usagers (r : Accident) (k : Z) :
  r ∈ df_accident caract lieux vehicules usagers →
  Num_Acc r = Some k →
  groupe us_Num_Acc usagers k ≠ [] →
  nb_tues r
    = Some (len (filter (λ u, us_grav u = Some 2) (groupe us_Num_Acc usagers k)))
  ∧ nb_blesses_hospitalises r
    = Some (len (filter (λ u, us_grav u = Some 3) (groupe us_Num_Acc usagers k)))
  ∧ nb_blesses_legers r
    = Some (len (filter (λ u, us_grav u = Some 4) (groupe us_Num_Acc usagers k)))
  ∧ nb_indemnes r
    = Some (len (filter (λ u, us_grav u = Some 1) (groupe us_Num_Acc usagers k))).
Proof.
  intros Hr Hk Hne. apply elem_of_df_accident in Hr as (c & Hc & ->).
  change (ca_Num_Acc c = Some k) in Hk.
  unfold nb_tues, nb_blesses_hospitalises, nb_blesses_legers, nb_indemnes.
  rewrite (fu_usagers_ligne _ _ _ _ k) by done.
  cbn [fmap option_fmap option_map].
  repeat split; f_equal; apply somme_egal_colonne.
Qed.

(** X9. On the row of an accident that has person rows, the four injury
    counts are non-negative and add up to the number of its persons whose
    injury code is 1, 2, 3 or 4: at most the number of its person rows, and
    exactly that number when every person has one of these codes. *)
Theorem compteurs_gravite_total caract lieux vehicules usagers
    (r : Accident) (k : Z) :
  r ∈ df_accident caract lieux vehicules usagers →
  Num_Acc r = Some k →
  groupe us_Num_Acc usagers k ≠ [] →
  ∃ t h l i,
    nb_tues r = Some t ∧ nb_blesses_hospitalises r = Some h
    ∧ nb_blesses_legers r = Some l ∧ nb_indemnes r = Some i
    ∧ 0 ≤ t ∧ 0 ≤ h ∧ 0 ≤ l ∧ 0 ≤ i
    ∧ t + h + l + i
      = len (filter (λ u, us_grav u ∈ [Some 1; Some 2; Some 3; Some 4])
               (groupe us_Num_Acc usagers k))
    ∧ t + h + l + i ≤ len (groupe us_Num_Acc usagers k)
    ∧ ((∀ u, u ∈ groupe us_Num_Acc usagers k →
          us_grav u ∈ [Some 1; Some 2; Some 3; Some 4]) →
       t + h + l + i = len (groupe us_Num_Acc usagers k)).
Proof.
  intros Hr Hk Hne.
  destruct (compteurs_gravite_ligne _ _ _ _ _ _ Hr Hk Hne) as (Ht & Hh & Hl & Hi).
  do 4 eexists. do 4 (split; [eassumption|]).
  do 4 (split; [apply len_nonneg|]).
  rewrite len_filter_codes. split; [done|]. split; [apply len_filter_le|].
  intros Htous. f_equal. clear -Htous.
  induction (groupe us_Num_Acc usagers k) as [|u g IH]; [done|].
  rewrite filter_cons_True by (apply Htous; left).
  f_equal. apply IH. intros u' Hu'. apply Htous. by right.
Qed.

Lemma compteurs_gravite_total_temoin :
  ∃ r : Accident,
    r ∈ df_accident_exemple ∧ Num_Acc r = Some 1
    ∧ ∃ t h l i,
        nb_tues r = Some t ∧ nb_blesses_hospitalises r = Some h
        ∧ nb_blesses_legers r = Some l ∧ nb_indemnes r = Some i
        ∧ t + h + l + i = 3.
Proof.
  exists (ligne_accident lieux_exemples vehicules_exemples usagers_exemples
            (caract_exemple 1)).
  split; [exact ligne_exemple_1|]. split; [reflexivity|].
  destruct (compteurs_gravite_total _ _ _ _ _ 1 ligne_exemple_1 eq_refl)
    as (t & h & l & i & Ht & Hh & Hl & Hi & _ & _ & _ & _ & Hsum & _).
  - vm_compute. discriminate.
  - exists t, h, l, i. do 4 (split; [assumption|]). rewrite Hsum. reflexivity.
Defined.

Lemma division_bornes (a b : Z) : 0 ≤ a ≤ b → 0 < b → (0 <= division a b <= 1)%Q.
Proof.
  intros Ha Hb. unfold division. destruct b as [|p|p]; try lia.
  unfold Qdiv, Qinv, Qmult, Qle. cbn. lia.
Qed.

Lemma agg_sexe_bornes (x : list (option Z)) : (0 <= agg_sexe x <= 1)%Q.
Proof.
  unfold agg_sexe. case_decide as Hlen; [|done].
  apply division_bornes; [|lia]. unfold somme_egal. split; [lia|].
  apply (len_filter_le (λ v, v = Some 1)).
Qed.

(** X10. Wherever [pct_hommes] is present on the accident-grain table, it
    lies between 0 and 1 inclusive. *)
Theorem pct_hommes_bornes caract lieux vehicules usagers (r : Accident) (q : Q) :
  r ∈ df_accident caract lieux vehicules usagers →
  pct_hommes r = Some q →
  (0 <= q <= 1)%Q.
Proof.
  intros Hr Hq. apply elem_of_df_accident in Hr as (c & Hc & ->).
  unfold pct_hommes in Hq.
  cbn [ligne_accident acc_gravite ajouter_gravite gr_fusion fu_usagers] in Hq.
  unfold stats_du_groupe in Hq.
  destruct (ca_Num_Acc c) as [k|]; [|done].
  change (Some k ≫= ?f) with (f k) in Hq. cbv beta in Hq.
  case_decide; [done|]. injection Hq as <-. apply agg_sexe_bornes.
Qed.

Lemma pct_hommes_bornes_temoin :
  ∃ (r : Accident) (q : Q),
    r ∈ df_accident_exemple ∧ pct_hommes r = Some q ∧ (0 <= q <= 1)%Q.
Proof.
  exists (ligne_accident lieux_exemples vehicules_exemples usagers_exemples
            (caract_exemple 1)), (2 # 3)%Q.
  split; [exact ligne_exemple_1|]. split; [reflexivity|].
  exact (pct_hommes_bornes _ _ _ _ _ _ ligne_exemple_1 eq_refl).
Defined.

(** X11. [nb_vehicules] is the number of rows of the vehicles table with
    the accident's [Num_Acc]; for an accident without vehicle rows, or
    without a [Num_Acc], it is missing, and it is never 0. *)
Theorem nb_vehicules_lignes caract lieux vehicules usagers (r : Accident) :
  r ∈ df_accident caract lieux vehicules usagers →
  (∀ k, Num_Acc r = Some k →
     nb_vehicules r
     = if decide (groupe ve_Num_Acc vehicules k = []) then None
       else Some (len (groupe ve_Num_Acc vehicules k)))
  ∧ (Num_Acc r = None → nb_vehicules r = None)
  ∧ nb_vehicules r ≠ Some 0.
Proof.
  intros Hr. apply elem_of_df_accident in Hr as (c & Hc & ->).
  unfold nb_vehicules, Num_Acc.
  cbn [ligne_accident acc_gravite ajouter_gravite gr_fusion fu_vehicules fu_caract].
  unfold stats_du_groupe. destruct (ca_Num_Acc c) as [k|].
  - change (Some k ≫= ?f) with (f k). cbv beta.
    split; [|split; [done|]].
    + intros ? [= <-]. by case_decide.
    + case_decide as Hg; [done|]. cbn. intros [= H0].
      unfold len in H0. destruct (groupe ve_Num_Acc vehicules k); [done|].
      cbn [length] in H0. lia.
  - split; [done|]. split; done.
Qed.

Lemma nb_vehicules_lignes_temoin :
  ∃ r : Accident,
    r ∈ df_accident_exemple ∧ Num_Acc r = Some 1 ∧ nb_vehicules r = Some 2.
Proof.
  exists (ligne_accident lieux_exemples vehicules_exemples usagers_exemples
            (caract_exemple 1)).
  split; [exact ligne_exemple_1|]. split; [reflexivity|].
  rewrite (proj1 (nb_vehicules_lignes _ _ _ _ _ ligne_exemple_1) 1 eq_refl).
  reflexivity.
Defined.

(** The three counts behind the severity columns are all missing or all
    present and non-negative. *)
Lemma compteurs_ligne lieux vehicules usagers (c : Caract) :
  let r : Accident := ligne_accident lieux vehicules usagers c in
  (nb_tues r = None ∧ nb_blesses_hospitalises r = None ∧ nb_blesses_legers r = None)
  ∨ ∃ t h l, nb_tues r = Some t ∧ nb_blesses_hospitalises r = Some h
             ∧ nb_blesses_legers r = Some l ∧ 0 ≤ t ∧ 0 ≤ h ∧ 0 ≤ l.
Proof.
  unfold nb_tues, nb_blesses_hospitalises, nb_blesses_legers.
  cbn [ligne_accident acc_gravite ajouter_gravite gr_fusion fu_usagers].
  destruct (stats_du_groupe us_Num_Acc usagers agg_usagers (ca_Num_Acc c))
    as [s|] eqn:Hs; [|by left].
  right. unfold stats_du_groupe in Hs. destruct (ca_Num_Acc c) as [k|]; [|done].
  change (Some k ≫= ?f) with (f k) in Hs. cbv beta in Hs.
  case_decide; [done|]. injection Hs as <-.
  do 3 eexists. do 3 (split; [reflexivity|]).
  cbn. unfold somme_egal. lia.
Qed.

(** X12. On every row of the accident-grain table the three severity
    columns agree: [accident_mortel] is 1 exactly when the class is "Mortel";
    the class is "Matériel uniquement" exactly when the score is missing or
    0; a score that is present is a non-negative multiple of 10, and is at
    least 100 on a "Mortel" row. *)
Theorem gravite_coherente caract lieux vehicules usagers (r : Accident) :
  r ∈ df_accident caract lieux vehicules usagers →
  (accident_mortel r = 1 ↔ categorie_gravite r = "Mortel")
  ∧ (categorie_gravite r = "Matériel uniquement" ↔
       score_gravite r = None ∨ score_gravite r = Some 0)
  ∧ (∀ s, score_gravite r = Some s → 0 ≤ s ∧ s mod 10 = 0)
  ∧ (categorie_gravite r = "Mortel" → ∃ s, score_gravite r = Some s ∧ 100 ≤ s).
Proof.
  intros Hr. apply elem_of_df_accident in Hr as (c & Hc & ->).
  destruct (compteurs_ligne lieux vehicules usagers c)
    as [(Ht & Hh & Hl)|(t & h & l & Ht & Hh & Hl & H0t & H0h & H0l)];
    cbn [ligne_accident acc_gravite acc_lieu ajouter_gravite gr_fusion
         score_gravite categorie_gravite accident_mortel] in *;
    unfold calcul_accident_mortel, categoriser_gravite, calcul_score_gravite;
    rewrite Ht, Hh, Hl; cbn [sup0 fois plus fmap option_fmap option_map].
  - repeat split; try done; auto.
  - repeat case_bool_decide; repeat split; intros;
      try done; try lia; simplify_eq;
      first [ by auto
            | (eexists; split; [reflexivity | lia])
            | (destruct H as [|[= ?]]; [done | lia])
            | idtac ].
    all: try (Z.div_mod_to_equations; lia).
    all: try (right; f_equal; lia).
    all: match goal with
         | H : _ ∨ _ |- _ => destruct H as [?|[= ?]]; [done | lia]
         end.
Qed.

Lemma gravite_coherente_temoin :
  ∃ r : Accident,
    r ∈ df_accident_exemple
    ∧ accident_mortel r = 1 ∧ categorie_gravite r = "Mortel".
Proof.
  exists (ligne_accident lieux_exemples vehicules_exemples usagers_exemples
            (caract_exemple 1)).
  split; [exact ligne_exemple_1|].
  split; [|reflexivity].
  apply (proj1 (gravite_coherente _ _ _ _ _ ligne_exemple_1)). reflexivity.
Defined.

(** * Totals over the tables *)

Lemma somme_cons (x : Z) (l : list Z) : somme (x :: l) = x + somme l.
Proof. done. Qed.

Lemma somme_fmap_plus {A} (f g : A → Z) (l : list A) :
  somme ((λ x, f x + g x) <$> l) = somme (f <$> l) + somme (g <$> l).
Proof.
  induction l as [|x l IH]; [done|].
  rewrite !fmap_cons, !somme_cons, IH. lia.
Qed.

Lemma somme_fmap_zero {A} (l : list A) : somme ((λ _, 0) <$> l) = 0.
Proof. induction l as [|x l IH]; [done|]. by rewrite fmap_cons, somme_cons, IH. Qed.

(** Among distinct keys at most one equals a given key. *)
Lemma somme_indicatrice (ks : list Z) (ko : option Z) :
  NoDup ks →
  somme ((λ k, if decide (ko = Some k) then 1 else 0) <$> ks)
  = if decide (ko ∈ Some <$> ks) then 1 else 0.
Proof.
  induction 1 as [|k ks Hk Hnd IH].
  - rewrite decide_False; [done|]. apply not_elem_of_nil.
  - rewrite !fmap_cons, somme_cons, IH.
    destruct (decide (ko = Some k)) as [->|Hne].
    + rewrite (decide_True (P:=Some k ∈ Some k :: _)) by left.
      rewrite decide_False; [done|].
      intros (k' & [= <-] & Hin)%list_elem_of_fmap. done.
    + destruct (decide (ko ∈ Some <$> ks)) as [Hin|Hnin].
      * by rewrite decide_True by (by right).
      * rewrite decide_False; [done|].
        intros [->|?]%elem_of_cons; done.
Qed.

(** Counting group by group over distinct keys is counting the rows whose
    key is one of them. *)
Lemma somme_groupes {A} (cle : A → option Z) (P : A → Prop)
    `{!∀ x, Decision (P x)} (ks : list Z) (t : list A) :
  NoDup ks →
  somme ((λ k, len (filter P (groupe cle t k))) <$> ks)
  = len (filter (λ r, P r ∧ cle r ∈ Some <$> ks) t).
Proof.
  intros Hnd. induction t as [|r t IH].
  - apply somme_fmap_zero.
  - assert (∀ k, len (filter P (groupe cle (r :: t) k))
                 = len (filter P (groupe cle t k))
                   + (if decide (P r) then if decide (cle r = Some k) then 1 else 0
                      else 0)) as Hk.
    { intros k. unfold groupe. rewrite filter_cons.
      destruct (decide (cle r = Some k)), (decide (P r)).
      - rewrite filter_cons_True by done. rewrite len_cons. lia.
      - rewrite filter_cons_False by done. lia.
      - lia.
      - lia. }
    rewrite (list_fmap_ext _ _ _ (λ _ k _, Hk k)).
    rewrite somme_fmap_plus, IH. rewrite filter_cons.
    destruct (decide (P r)) as [HP|HP].
    + rewrite somme_indicatrice by done.
      destruct (decide (cle r ∈ Some <$> ks)).
      * rewrite decide_True by done. rewrite len_cons. lia.
      * rewrite decide_False by tauto. lia.
    + rewrite somme_fmap_zero. rewrite decide_False by tauto. lia.
Qed.

(** The total of a person count over the accident-grain table, accident by
    accident. *)
Lemma sum_skipna_compteur (proj : StatsUsagers → Z) (P : Usager → Prop)
    `{!∀ u, Decision (P u)} caract lieux vehicules usagers :
  (∀ k g, proj (agg_usagers k g) = len (filter P g)) →
  sum_skipna ((λ r : Accident, proj <$> fu_usagers r)
                <$> df_accident caract lieux vehicules usagers)
  = somme ((λ k, len (filter P (groupe us_Num_Acc usagers k)))
             <$> omap ca_Num_Acc caract).
Proof.
  intros Hproj. rewrite df_accident_lignes. unfold sum_skipna.
  induction caract as [|c caract IH]; [done|].
  rewrite !fmap_cons. cbn [omap list_omap].
  cbn [ligne_accident acc_gravite ajouter_gravite gr_fusion fu_usagers].
  unfold stats_du_groupe at 1.
  destruct (ca_Num_Acc c) as [k|]; [|exact IH].
  change (Some k ≫= ?f) with (f k). cbv beta.
  rewrite (fmap_cons _ k), (somme_cons (len _)), <- IH.
  case_decide as Hg.
  - rewrite Hg. cbn. done.
  - cbn [fmap option_fmap option_map id]. by rewrite somme_cons, Hproj.
Qed.

Lemma filter_et_vrai {A} (P Q : A → Prop) `{!∀ x, Decision (P x)}
    `{!∀ x, Decision (Q x)} (l : list A) :
  (∀ x, x ∈ l → Q x) → filter (λ x, P x ∧ Q x) l = filter P l.
Proof.
  intros HQ. induction l as [|x l IH]; [done|].
  rewrite !filter_cons.
  assert (Q x) by (apply HQ; left).
  rewrite IH by (intros y Hy; apply HQ; by right).
  destruct (decide (P x)).
  - by rewrite decide_True by done.
  - by rewrite decide_False by tauto.
Qed.

(** X13. When no two rows of the characteristics table share a [Num_Acc]
    and every person row carries the [Num_Acc] of one of them, the totals
    printed in the final report are the totals of the persons table: the sum
    of [nb_tues] over the accident-grain table is the number of persons with
    injury code 2, and likewise for codes 3, 4 and 1. *)
Theorem totaux_du_rapport caract lieux vehicules usagers :
  NoDup (omap ca_Num_Acc caract) →
  (∀ u, u ∈ usagers → us_Num_Acc u ∈ Some <$> omap ca_Num_Acc caract) →
  sum_skipna ((λ r : Accident, nb_tues r)
                <$> df_accident caract lieux vehicules usagers)
    = len (filter (λ u, us_grav u = Some 2) usagers)
  ∧ sum_skipna ((λ r : Accident, nb_blesses_hospitalises r)
                  <$> df_accident caract lieux vehicules usagers)
    = len (filter (λ u, us_grav u = Some 3) usagers)
  ∧ sum_skipna ((λ r : Accident, nb_blesses_legers r)
                  <$> df_accident caract lieux vehicules usagers)
    = len (filter (λ u, us_grav u = Some 4) usagers)
  ∧ sum_skipna ((λ r : Accident, nb_indemnes r)
                  <$> df_accident caract lieux vehicules usagers)
    = len (filter (λ u, us_grav u = Some 1) usagers).
Proof.
  intros Hnd Hcouv.
  assert (∀ (proj : StatsUsagers → Z) (code : Z),
            (∀ k g, proj (agg_usagers k g)
                    = len (filter (λ u, us_grav u = Some code) g)) →
            sum_skipna ((λ r : Accident, proj <$> fu_usagers r)
                          <$> df_accident caract lieux vehicules usagers)
            = len (filter (λ u, us_grav u = Some code) usagers)) as Htot.
  { intros proj code Hproj.
    rewrite (sum_skipna_compteur proj (λ u, us_grav u = Some code)) by done.
    rewrite somme_groupes by done. by rewrite filter_et_vrai. }
  repeat split; apply Htot; intros k g; apply somme_egal_colonne.
Qed.

Lemma totaux_du_rapport_temoin :
  sum_skipna ((λ r : Accident, nb_tues r) <$> df_accident_exemple) = 1
  ∧ sum_skipna ((λ r : Accident, nb_blesses_hospitalises r) <$> df_accident_exemple) = 2.
Proof.
  destruct (totaux_du_rapport caract_exemples lieux_exemples vehicules_exemples
              usagers_exemples) as (Ht & Hh & _).
  - apply (bool_decide_unpack _). vm_compute. exact I.
  - intros u Hu. apply (bool_decide_unpack _).
    repeat (apply elem_of_cons in Hu as [->|Hu]; [vm_compute; exact I|]).
    by apply elem_of_nil in Hu.
  - split; [exact (eq_trans Ht eq_refl) | exact (eq_trans Hh eq_refl)].
Defined.

Lemma StronglySorted_lt_NoDup (l : list Z) :
  StronglySorted Z.le l → NoDup l → StronglySorted Z.lt l.
Proof.
  induction 1 as [|x l Hl IH Hx]; [constructor|].
  intros [Hxl Hnd]%NoDup_cons. constructor; [auto|].
  rewrite Forall_forall in Hx |- *. intros y Hy.
  specialize (Hx y Hy). assert (x ≠ y) by (by intros ->). lia.
Qed.

Lemma groupby_cles_tri {A} (cle : A → option Z) (t : list A) :
  StronglySorted Z.lt (groupby cle t).*1.
Proof.
  apply StronglySorted_lt_NoDup; [|apply groupby_cles_NoDup].
  rewrite groupby_cles. apply (StronglySorted_merge_sort _).
Qed.

Lemma filter_ssi_dans {A} (P Q : A → Prop) `{!∀ x, Decision (P x)}
    `{!∀ x, Decision (Q x)} (l : list A) :
  (∀ x, x ∈ l → P x ↔ Q x) → filter P l = filter Q l.
Proof.
  intros HPQ. induction l as [|x l IH]; [done|].
  rewrite !filter_cons.
  rewrite IH by (intros y Hy; apply HPQ; by right).
  assert (P x ↔ Q x) as Hx by (apply HPQ; left).
  destruct (decide (P x)).
  - by rewrite decide_True by tauto.
  - by rewrite decide_False by tauto.
Qed.

Lemma filter_vrai {A} (l : list A) : filter (λ _, True) l = l.
Proof. induction l as [|x l IH]; [done|]. by rewrite filter_cons_True, IH. Qed.

Lemma groupe_non_vide {A} (cle : A → option Z) (t : list A) (k : Z) :
  groupe cle t k ≠ [] ↔ Some k ∈ cle <$> t.
Proof.
  unfold groupe. rewrite list_elem_of_fmap. split.
  - intros Hne. destruct (filter _ t) as [|r g] eqn:Hg; [done|].
    assert (r ∈ filter (λ r, cle r = Some k) t) as Hin by (rewrite Hg; left).
    apply list_elem_of_filter in Hin as [Hk Hr]. by exists r.
  - intros (r & Hk & Hr) Hnil.
    eapply filter_nil_not_elem_of; [exact Hnil | symmetry; exact Hk | exact Hr].
Qed.

(** X14. The vehicle statistics have one row per [Num_Acc] present in the
    vehicles table, in strictly increasing order of [Num_Acc]; every count is
    at least 1; and the counts add up to the number of vehicle rows that
    carry a [Num_Acc] (rows without one are in no group). *)
Theorem stats_vehicules_partition (vehicules : list Vehicule) :
  StronglySorted Z.lt (sv_Num_Acc <$> stats_vehicules vehicules)
  ∧ (∀ k, k ∈ sv_Num_Acc <$> stats_vehicules vehicules ↔
          Some k ∈ ve_Num_Acc <$> vehicules)
  ∧ (∀ s, s ∈ stats_vehicules vehicules →
          sv_nb_vehicules s = len (groupe ve_Num_Acc vehicules (sv_Num_Acc s))
          ∧ 1 ≤ sv_nb_vehicules s)
  ∧ somme (sv_nb_vehicules <$> stats_vehicules vehicules)
    = len (filter (λ v, is_Some (ve_Num_Acc v)) vehicules).
Proof.
  assert (sv_Num_Acc <$> stats_vehicules vehicules
          = (groupby ve_Num_Acc vehicules).*1) as Hcles.
  { unfold stats_vehicules. rewrite <- list_fmap_compose.
    by apply list_fmap_ext. }
  split; [|split; [|split]].
  - rewrite Hcles. apply groupby_cles_tri.
  - intros k. rewrite Hcles, elem_of_groupby_cles. apply groupe_non_vide.
  - intros s (kg & -> & Hkg)%list_elem_of_fmap. destruct kg as [k g].
    apply elem_of_groupby in Hkg as [-> Hne]. cbn. split; [done|].
    unfold len. destruct (groupe ve_Num_Acc vehicules k); [done|].
    cbn [length]. lia.
  - unfold stats_vehicules.
    rewrite (table_par_groupe ve_Num_Acc ligne_vehicules), <- list_fmap_compose.
    pose proof (somme_groupes ve_Num_Acc (λ _, True)
                  (groupby ve_Num_Acc vehicules).*1 vehicules
                  (groupby_cles_NoDup _ _)) as Hsom.
    assert (∀ k, (sv_nb_vehicules
                    ∘ (λ k, ligne_vehicules k (groupe ve_Num_Acc vehicules k))) k
                 = len (filter (λ _, True) (groupe ve_Num_Acc vehicules k)))
      as Hf by (intros k; cbn; by rewrite filter_vrai).
    rewrite (list_fmap_ext _ _ _ (λ _ k _, Hf k)), Hsom.
    f_equal. apply filter_ssi_dans. intros v Hv. split.
    + intros [_ (k & -> & _)%list_elem_of_fmap]. by eexists.
    + intros [k Hk]. split; [done|]. rewrite Hk.
      apply list_elem_of_fmap_2, elem_of_groupby_cles, groupe_non_vide.
      rewrite <- Hk. by apply list_elem_of_fmap_2.
Qed.

(** * First-row de-duplication of the locations *)

Section FaitsDropDuplicates.

Context {A : Type} (cle : A → option Z).

Lemma drop_duplicates_depuis_sublist (vues : list (option Z)) (t : list A) :
  drop_duplicates_depuis cle vues t `sublist_of` t.
Proof.
  revert vues. induction t as [|r t IH]; intros vues; cbn [drop_duplicates_depuis].
  - constructor.
  - case_decide; [apply sublist_cons | apply sublist_skip]; apply IH.
Qed.

Lemma elem_of_drop_duplicates_depuis_cles (vues : list (option Z)) (t : list A) k :
  k ∈ cle <$> drop_duplicates_depuis cle vues t ↔ k ∈ cle <$> t ∧ k ∉ vues.
Proof.
  revert vues. induction t as [|r t IH]; intros vues; cbn [drop_duplicates_depuis].
  - rewrite fmap_nil, elem_of_nil. tauto.
  - case_decide as Hr.
    + rewrite IH, fmap_cons, elem_of_cons. split; [tauto|].
      intros [[->|Hk] Hvu]; [done | tauto].
    + rewrite !fmap_cons, !elem_of_cons, IH, not_elem_of_cons. split.
      * intros [->|(Hk & Hne & Hvu)]; tauto.
      * intros [[->|Hk] Hvu]; [by left|].
        destruct (decide (k = cle r)) as [->|Hne]; [by left | right; tauto].
Qed.

Lemma drop_duplicates_depuis_id (vues : list (option Z)) (t : list A) :
  NoDup (cle <$> t) → (∀ k, k ∈ cle <$> t → k ∉ vues) →
  drop_duplicates_depuis cle vues t = t.
Proof.
  revert vues. induction t as [|r t IH]; intros vues Hnd Hvu; [done|].
  rewrite fmap_cons in Hnd, Hvu. apply NoDup_cons in Hnd as [Hr Hnd].
  cbn [drop_duplicates_depuis].
  rewrite decide_False by (apply Hvu; left). f_equal. apply IH; [done|].
  intros k Hk. rewrite not_elem_of_cons. split.
  - by intros ->.
  - apply Hvu. by right.
Qed.

End FaitsDropDuplicates.

(** X15. [lieux_enrichi], the de-duplicated locations table, keeps rows of
    the locations table in their order, has exactly one row for each
    [Num_Acc] of that table (rows without [Num_Acc] counting as one key), and
    de-duplicating again, or de-duplicating a table whose keys are already
    distinct, changes nothing. *)
Theorem lieux_enrichi_premiers (lieux : list Lieu) :
  drop_duplicates li_Num_Acc lieux `sublist_of` lieux
  ∧ NoDup (li_Num_Acc <$> drop_duplicates li_Num_Acc lieux)
  ∧ (∀ k, k ∈ li_Num_Acc <$> drop_duplicates li_Num_Acc lieux ↔
          k ∈ li_Num_Acc <$> lieux)
  ∧ drop_duplicates li_Num_Acc (drop_duplicates li_Num_Acc lieux)
    = drop_duplicates li_Num_Acc lieux
  ∧ (NoDup (li_Num_Acc <$> lieux) → drop_duplicates li_Num_Acc lieux = lieux).
Proof.
  unfold drop_duplicates. split; [apply drop_duplicates_depuis_sublist|].
  split; [apply drop_duplicates_depuis_cles|].
  split; [|split].
  - intros k. rewrite elem_of_drop_duplicates_depuis_cles.
    split; [tauto|]. split; [done | apply not_elem_of_nil].
  - apply drop_duplicates_depuis_id; [apply drop_duplicates_depuis_cles|].
    intros k _. apply not_elem_of_nil.
  - intros Hnd. apply drop_duplicates_depuis_id; [done|].
    intros k _. apply not_elem_of_nil.
Qed.

(** * The enrichment loop as a whole *)

Lemma enrichir_liste_derivee ms (df : DataFrame) colonne mapping :
  NoDup (noms_enrichis ms) →
  Forall (λ cm, cm.1 ∉ noms_enrichis ms) ms →
  (colonne, mapping) ∈ ms →
  foldl (λ d cm, enrichir_colonne d cm.1 cm.2) df ms !! (colonne +:+ "_code")
  = match df !! colonne with
    | Some c => Some c
    | None => df !! (colonne +:+ "_code")
    end
  ∧ foldl (λ d cm, enrichir_colonne d cm.1 cm.2) df ms !! (colonne +:+ "_desc")
    = match df !! colonne with
      | Some c => Some (desc_cell mapping <$> c)
      | None => df !! (colonne +:+ "_desc")
      end.
Proof.
  intros Hnd Hcols Hin.
  assert (colonne ∉ noms_enrichis ms) as Hcol.
  { rewrite Forall_forall in Hcols. apply (Hcols _ Hin). }
  apply list_elem_of_split in Hin as (ms1 & ms2 & ->).
  rewrite foldl_app. cbn [foldl fst snd].
  rewrite noms_enrichis_app in Hnd, Hcol.
  change (noms_enrichis ((colonne, mapping) :: ms2))
    with ((colonne +:+ "_code") :: (colonne +:+ "_desc") :: noms_enrichis ms2)
    in Hnd, Hcol.
  apply NoDup_app in Hnd as (_ & Hms1 & Hnd).
  assert (colonne +:+ "_code" ∉ noms_enrichis ms1) as Hcode1.
  { intros Hin. apply (Hms1 _ Hin). left. }
  assert (colonne +:+ "_desc" ∉ noms_enrichis ms1) as Hdesc1.
  { intros Hin. apply (Hms1 _ Hin). right. left. }
  apply NoDup_cons in Hnd as [Hcode Hnd]. apply NoDup_cons in Hnd as [Hdesc _].
  rewrite not_elem_of_cons in Hcode. destruct Hcode as [Hcd Hcode].
  assert (foldl (λ d cm, enrichir_colonne d cm.1 cm.2) df ms1 !! colonne
          = df !! colonne) as Hc1.
  { apply enrichir_liste_autre. intros Hin. apply Hcol.
    apply elem_of_app. by left. }
  rewrite !enrichir_liste_autre by done.
  destruct (df !! colonne) as [c|] eqn:Hc.
  - by apply enrichir_colonne_code_desc.
  - unfold enrichir_colonne at 1 3. rewrite Hc1.
    by rewrite !enrichir_liste_autre.
Qed.

Lemma enrichir_mappings_autre (df : DataFrame) (nom : string) :
  nom ∉ noms_enrichis MAPPINGS → enrichir_mappings df !! nom = df !! nom.
Proof. intros Hnom. by apply enrichir_liste_autre. Qed.

Lemma enrichir_mappings_codee (df : DataFrame) (colonne : string) mapping :
  (colonne, mapping) ∈ MAPPINGS →
  enrichir_mappings df !! colonne = df !! colonne
  ∧ (∀ c, df !! colonne = Some c →
       enrichir_mappings df !! (colonne +:+ "_code") = Some c
       ∧ enrichir_mappings df !! (colonne +:+ "_desc")
         = Some (desc_cell mapping <$> c))
  ∧ (df !! colonne = None →
       enrichir_mappings df !! (colonne +:+ "_code")
       = df !! (colonne +:+ "_code")
       ∧ enrichir_mappings df !! (colonne +:+ "_desc")
         = df !! (colonne +:+ "_desc")).
Proof.
  destruct MAPPINGS_noms_enrichis as [Hnd Hcols]. intros Hin.
  pose proof (enrichir_liste_derivee MAPPINGS df colonne mapping Hnd Hcols Hin)
    as [Hcode Hdesc].
  split; [|split].
  - apply enrichir_mappings_autre. rewrite Forall_forall in Hcols.
    apply (Hcols _ Hin).
  - intros c Hc. unfold enrichir_mappings. by rewrite Hcode, Hdesc, Hc.
  - intros Hc. unfold enrichir_mappings. by rewrite Hcode, Hdesc, Hc.
Qed.

(** X16. After the loop over [MAPPINGS]: every column whose name is not a
    derived name ([x_code] or [x_desc] for a coded column [x]) is as before,
    the coded columns among them; each coded column present in the frame has
    its [_code] copy and its [_desc] labels from its own dictionary; and for a
    coded column absent from the frame nothing is written, without an
    error. *)
Theorem enrichir_mappings_colonnes (df : DataFrame) :
  (∀ nom, nom ∉ noms_enrichis MAPPINGS → enrichir_mappings df !! nom = df !! nom)
  ∧ (∀ colonne mapping, (colonne, mapping) ∈ MAPPINGS →
       enrichir_mappings df !! colonne = df !! colonne
       ∧ (∀ c, df !! colonne = Some c →
            enrichir_mappings df !! (colonne +:+ "_code") = Some c
            ∧ enrichir_mappings df !! (colonne +:+ "_desc")
              = Some (desc_cell mapping <$> c))
       ∧ (df !! colonne = None →
            enrichir_mappings df !! (colonne +:+ "_code")
            = df !! (colonne +:+ "_code")
            ∧ enrichir_mappings df !! (colonne +:+ "_desc")
              = df !! (colonne +:+ "_desc"))).
Proof.
  split.
  - intros nom Hnom. by apply enrichir_mappings_autre.
  - intros colonne mapping Hin.
    destruct (enrichir_mappings_codee df colonne mapping Hin)
      as (Hcol & Hpres & Habs).
    split; [exact Hcol|]. split; [exact Hpres | exact Habs].
Qed.

(** X17. Running the enrichment loop a second time changes nothing. *)
Theorem enrichir_mappings_idempotent (df : DataFrame) :
  enrichir_mappings (enrichir_mappings df) = enrichir_mappings df.
Proof.
  apply map_eq. intros nom.
  pose proof (enrichir_mappings_codee df) as Hcols.
  pose proof (enrichir_mappings_codee (enrichir_mappings df)) as Hcols'.
  destruct (decide (nom ∈ noms_enrichis MAPPINGS)) as [Hin|Hnin];
    [|by apply enrichir_mappings_autre].
  unfold noms_enrichis in Hin.
  apply list_elem_of_bind in Hin as ([colonne mapping] & Hnom & Hin).
  destruct (Hcols _ _ Hin) as (Hcol & Hpres & Habs).
  destruct (Hcols' _ _ Hin) as (_ & Hpres' & Habs').
  rewrite Hcol in Hpres', Habs'.
  cbn [fst] in Hnom. rewrite !elem_of_cons, elem_of_nil in Hnom.
  destruct (df !! colonne) as [c|] eqn:Hc.
  - destruct (Hpres c eq_refl) as [H1 H2]. destruct (Hpres' c eq_refl) as [H1' H2'].
    destruct Hnom as [->|[->|[]]]; congruence.
  - destruct (Habs' eq_refl) as [H1' H2'].
    destruct Hnom as [->|[->|[]]]; done.
Qed.

(** * The person-grain table *)

Section FaitsMerge.

Context {A B K : Type} `{EqDecision K}.
Implicit Types (cleA : A → K) (cleB : B → K).

Lemma elem_of_merge_left_sur_Some cleA cleB (gauche : list A) (droite : list B) a b :
  (a, Some b) ∈ merge_left_sur cleA cleB gauche droite ↔
  a ∈ gauche ∧ b ∈ droite ∧ cleB b = cleA a.
Proof.
  unfold merge_left_sur. rewrite list_elem_of_bind. split.
  - intros (a' & Hin & Ha').
    destruct (filter (λ b, cleB b = cleA a') droite) as [|b0 bs] eqn:Hf.
    + apply list_elem_of_singleton in Hin. done.
    + apply list_elem_of_fmap in Hin as (b' & [= -> ->] & Hb').
      rewrite <- Hf in Hb'. apply list_elem_of_filter in Hb'. tauto.
  - intros (Ha & Hb & Hk). exists a. split; [|done].
    assert (b ∈ filter (λ b, cleB b = cleA a) droite) as Hin
      by (by apply list_elem_of_filter).
    destruct (filter (λ b, cleB b = cleA a) droite) as [|b0 bs] eqn:Hf.
    + by apply elem_of_nil in Hin.
    + by apply list_elem_of_fmap_2'  with b.
Qed.

Lemma elem_of_merge_left_sur_None cleA cleB (gauche : list A) (droite : list B) a :
  (a, None) ∈ merge_left_sur cleA cleB gauche droite ↔
  a ∈ gauche ∧ ∀ b, b ∈ droite → cleB b ≠ cleA a.
Proof.
  unfold merge_left_sur. rewrite list_elem_of_bind. split.
  - intros (a' & Hin & Ha').
    destruct (filter (λ b, cleB b = cleA a') droite) as [|b0 bs] eqn:Hf.
    + apply list_elem_of_singleton in Hin as [= ->]. split; [done|].
      intros b Hb Hk. eapply filter_nil_not_elem_of; [exact Hf | exact Hk | exact Hb].
    + apply list_elem_of_fmap in Hin as (b' & [=] & _).
  - intros (Ha & Hsans). exists a. split; [|done].
    destruct (filter (λ b, cleB b = cleA a) droite) as [|b0 bs] eqn:Hf.
    + apply list_elem_of_singleton. done.
    + assert (b0 ∈ filter (λ b, cleB b = cleA a) droite) as Hin
        by (rewrite Hf; left).
      apply list_elem_of_filter in Hin as [Hk Hb]. by destruct (Hsans b0).
Qed.

Lemma elem_of_merge_left_sur_fst cleA cleB (gauche : list A) (droite : list B) a :
  a ∈ (merge_left_sur cleA cleB gauche droite).*1 ↔ a ∈ gauche.
Proof.
  rewrite list_elem_of_fmap. split.
  - intros ([a' [b|]] & -> & Hin).
    + by apply elem_of_merge_left_sur_Some in Hin as (? & _).
    + by apply elem_of_merge_left_sur_None in Hin as (? & _).
  - intros Ha.
    destruct (filter (λ b, cleB b = cleA a) droite) as [|b0 bs] eqn:Hf.
    + exists (a, None). split; [done|]. apply elem_of_merge_left_sur_None.
      split; [done|]. intros b Hb Hk.
      eapply filter_nil_not_elem_of; [exact Hf | exact Hk | exact Hb].
    + exists (a, Some b0). split; [done|]. apply elem_of_merge_left_sur_Some.
      assert (b0 ∈ filter (λ b, cleB b = cleA a) droite) as Hin
        by (rewrite Hf; left).
      apply list_elem_of_filter in Hin. tauto.
Qed.

Lemma len_merge_left_sur cleA cleB (gauche : list A) (droite : list B) :
  len (merge_left_sur cleA cleB gauche droite)
  = somme ((λ a, Z.max 1 (len (filter (λ b, cleB b = cleA a) droite)))
             <$> gauche).
Proof.
  unfold merge_left_sur, len. induction gauche as [|a gauche IH]; [done|].
  rewrite bind_cons, length_app, fmap_cons, somme_cons, <- IH.
  destruct (filter _ droite); [cbn [length]; lia|].
  rewrite length_fmap. cbn [length]. lia.
Qed.

End FaitsMerge.

Lemma merge_left_est_sur {A B} (cleA : A → option Z) (cleB : B → option Z)
    (gauche : list A) (droite : list B) :
  merge_left cleA cleB gauche droite = merge_left_sur cleA cleB gauche droite.
Proof. reflexivity. Qed.

Lemma len_fmap {A B} (f : A → B) (l : list A) : len (f <$> l) = len l.
Proof. unfold len. by rewrite length_fmap. Qed.

Lemma len_merge_left_sur_min {A B K} `{EqDecision K} (cleA : A → K) (cleB : B → K)
    (gauche : list A) (droite : list B) :
  len gauche ≤ len (merge_left_sur cleA cleB gauche droite).
Proof.
  rewrite len_merge_left_sur. induction gauche as [|a gauche IH]; [done|].
  rewrite fmap_cons, somme_cons, len_cons. lia.
Qed.

(** X18. The person-grain table loses no accident and invents none: the
    characteristics rows that occur in it are exactly the rows of the
    characteristics table, and it has at least as many rows as that table,
    whatever the locations, vehicles and persons tables hold. *)
Theorem df_detaille_accidents caract lieux vehicules usagers :
  (∀ c, c ∈ de_caract <$> df_detaille caract lieux vehicules usagers ↔ c ∈ caract)
  ∧ len caract ≤ len (df_detaille caract lieux vehicules usagers).
Proof.
  unfold df_detaille. rewrite !merge_left_est_sur. split.
  - intros c. rewrite <- list_fmap_compose.
    rewrite <- (elem_of_merge_left_sur_fst ca_Num_Acc li_Num_Acc caract lieux c).
    rewrite list_elem_of_fmap. split.
    + intros ([[[c' ol] ov] ou] & -> & Hin). cbn.
      apply (list_elem_of_fmap_2 fst) in Hin.
      apply elem_of_merge_left_sur_fst in Hin.
      apply (list_elem_of_fmap_2 fst) in Hin.
      apply elem_of_merge_left_sur_fst in Hin.
      by apply (list_elem_of_fmap_2 fst) in Hin.
    + intros ([c' ol] & Hc & Hin)%list_elem_of_fmap. cbn in Hc. subst c'.
      apply (elem_of_merge_left_sur_fst (ca_Num_Acc ∘ fst) ve_Num_Acc _ vehicules)
        in Hin.
      apply list_elem_of_fmap in Hin as ([col ov] & Hcol & Hin).
      cbn in Hcol. subst col.
      eapply elem_of_merge_left_sur_fst in Hin.
      apply list_elem_of_fmap in Hin as ([r ou] & Hr & Hin).
      cbn in Hr. subst r.
      exists (c, ol, ov, ou). split; [done|]. exact Hin.
  - rewrite len_fmap.
    etrans; [|apply len_merge_left_sur_min].
    etrans; [|apply len_merge_left_sur_min].
    apply len_merge_left_sur_min.
Qed.

(** X19. A person row occurs in the person-grain table exactly when some
    characteristics row has its [Num_Acc] and either a vehicle row of that
    accident has its [id_vehicule] and [num_veh], or the accident has no
    vehicle row and the person's two vehicle cells are missing.  So a person
    whose [Num_Acc] matches no accident, or whose vehicle matches none of the
    accident's vehicles, is absent from the table. *)
Theorem df_detaille_usagers caract lieux vehicules usagers (u : Usager) :
  Some u ∈ de_usager <$> df_detaille caract lieux vehicules usagers ↔
  u ∈ usagers
  ∧ ∃ c, c ∈ caract ∧ ca_Num_Acc c = us_Num_Acc u
      ∧ ((∃ v, v ∈ vehicules ∧ ve_Num_Acc v = ca_Num_Acc c
               ∧ ve_id_vehicule v = us_id_vehicule u
               ∧ ve_num_veh v = us_num_veh u)
         ∨ ((∀ v, v ∈ vehicules → ve_Num_Acc v ≠ ca_Num_Acc c)
            ∧ us_id_vehicule u = NaN ∧ us_num_veh u = NaN)).
Proof.
  unfold df_detaille. rewrite !merge_left_est_sur, <- list_fmap_compose.
  rewrite list_elem_of_fmap. split.
  - intros ([[[c ol] ov] ou] & Hu & Hin). cbn in Hu. subst ou.
    apply elem_of_merge_left_sur_Some in Hin as (Hdf2 & Hus & Hcle).
    cbn in Hcle. injection Hcle as Hk Hid Hnum.
    split; [done|]. exists c.
    assert (c ∈ caract) as Hc.
    { apply (list_elem_of_fmap_2 fst) in Hdf2.
      apply elem_of_merge_left_sur_fst in Hdf2.
      apply (list_elem_of_fmap_2 fst) in Hdf2.
      by apply elem_of_merge_left_sur_fst in Hdf2. }
    split; [done|]. split; [done|].
    destruct ov as [v|].
    + left. exists v.
      apply elem_of_merge_left_sur_Some in Hdf2 as (_ & Hv & Hkv). cbn in *.
      by rewrite Hid, Hnum.
    + right. apply elem_of_merge_left_sur_None in Hdf2 as (_ & Hsans).
      cbn in *. by rewrite Hid, Hnum.
  - intros (Hus & c & Hc & Hk & Hveh).
    apply (elem_of_merge_left_sur_fst ca_Num_Acc li_Num_Acc caract lieux) in Hc.
    apply list_elem_of_fmap in Hc as ([c' ol] & Hc' & Hdf1).
    cbn in Hc'. subst c'.
    destruct Hveh as [(v & Hv & Hkv & Hid & Hnum)|(Hsans & Hid & Hnum)].
    + exists (c, ol, Some v, Some u). split; [done|].
      apply elem_of_merge_left_sur_Some. split; [|split; [done|]].
      * apply elem_of_merge_left_sur_Some. done.
      * cbn. by rewrite Hk, Hid, Hnum.
    + exists (c, ol, None, Some u). split; [done|].
      apply elem_of_merge_left_sur_Some. split; [|split; [done|]].
      * apply elem_of_merge_left_sur_None. done.
      * cbn. by rewrite Hk, Hid, Hnum.
Qed.

(** * Time of day on well-formed times *)

(** X20. With [int] as it reads ASCII text, a time that starts with two
    digits and a colon never gets the sentinel: its bucket is that of the
    number the two digits spell, which is not checked to be an hour (so
    "25:00" is "Nuit"). *)
Theorem determiner_periode_journee_hhmm (a b : ascii) (d e : Z) (reste : string) :
  chiffre a = Some d → chiffre b = Some e →
  let p := determiner_periode_journee int_ascii
             (Some (String a (String b (String ":" reste)))) in
  p ≠ NON_RENSEIGNE
  ∧ (p = "Matin" ↔ 6 ≤ 10 * d + e < 12)
  ∧ (p = "Après-midi" ↔ 12 ≤ 10 * d + e < 18)
  ∧ (p = "Soirée" ↔ 18 ≤ 10 * d + e < 22)
  ∧ (p = "Nuit" ↔ 10 * d + e < 6 ∨ 22 ≤ 10 * d + e).
Proof.
  intros Ha Hb. unfold determiner_periode_journee.
  rewrite (int_ascii_deux_chiffres a b d e reste Ha Hb).
  repeat case_bool_decide; repeat split; intros; first [done | lia].
Qed.

Lemma determiner_periode_journee_hhmm_temoin :
  determiner_periode_journee int_ascii (Some "25:00") = "Nuit".
Proof.
  apply (proj2 (proj2 (proj2 (proj2
    (determiner_periode_journee_hhmm "2" "5" 2 5 "00" eq_refl eq_refl))))).
  lia.
Defined.

(** * The dashboard *)

(** X21. The dashboard's colour table has a colour for every severity
    class that [categoriser_gravite] can return, and no entry for anything
    else: its keys are exactly the four classes. *)
Theorem get_color_map_classes :
  (∀ row : Fusion, is_Some (dict_get_str get_color_map (categoriser_gravite row)))
  ∧ (∀ label, label ∈ get_color_map.*1 → ∃ row : Fusion, categoriser_gravite row = label).
Proof.
  split.
  - intros row. unfold categoriser_gravite.
    repeat case_match; eexists; reflexivity.
  - set (stats t h l :=
           {| su_Num_Acc := 1; su_nb_pietons := 0; su_pct_hommes := 0%Q;
              su_age_moyen := None; su_nb_usagers := 1; su_nb_tues := t;
              su_nb_blesses_hospitalises := h; su_nb_blesses_legers := l;
              su_nb_indemnes := 0 |}).
    set (ligne t h l :=
           {| fu_caract := caract_exemple 1; fu_usagers := Some (stats t h l);
              fu_vehicules := None |}).
    intros label Hl. cbn in Hl. rewrite !elem_of_cons, elem_of_nil in Hl.
    destruct Hl as [->|[->|[->|[->|[]]]]].
    + exists (ligne 1 0 0). by vm_compute.
    + exists (ligne 0 1 0). by vm_compute.
    + exists (ligne 0 0 1). by vm_compute.
    + exists (ligne 0 0 0). by vm_compute.
Qed.

Section FaitsFiltres.

Context {L : Type}.
Variable date : L → option Z.
Variable dep : L → string.
Variable categorie : L → string.
Variable catr_desc : L → option string.
Variable agg_desc : L → option string.

Lemma filtre_optionnel (c : Prop) `{!Decision c} (P : L → Prop)
    `{!∀ r, Decision (P r)} (l : list L) :
  (if decide c then l else filter P l) = filter (λ r, c ∨ P r) l.
Proof.
  destruct (decide c) as [Hc|Hc].
  - rewrite <- (filter_vrai l) at 1. apply list_filter_iff. tauto.
  - apply list_filter_iff. tauto.
Qed.

Lemma appliquer_filtres_filter (date_range : list Z)
    (selected_dept selected_severities : list string)
    (selected_road selected_agg : string) (df : list L) :
  appliquer_filtres date dep categorie catr_desc agg_desc date_range
    selected_dept selected_severities selected_road selected_agg df
  = filter (retenue date dep categorie catr_desc agg_desc date_range
              selected_dept selected_severities selected_road selected_agg) df.
Proof.
  unfold appliquer_filtres.
  rewrite (filtre_optionnel (selected_agg = "Tous")).
  rewrite (filtre_optionnel (selected_road = "Tous")).
  rewrite (filtre_optionnel (selected_severities = [])).
  rewrite (filtre_optionnel (selected_dept = [])).
  rewrite !list_filter_filter.
  destruct date_range as [|s [|e [|x l]]];
    rewrite ?list_filter_filter; apply list_filter_iff;
    intros r; unfold retenue; tauto.
Qed.

(** X22. The five dashboard filters applied in sequence keep exactly the
    rows that pass all five tests at once, in their order and with their
    multiplicity: a widget without selection (no department, no severity,
    "Tous", a date range that is not a pair) lets every row pass its test,
    and a two-date range rejects every row whose date is missing.  The rows
    shown are rows of the table, in table order. *)
Theorem appliquer_filtres_conjonction (date_range : list Z)
    (selected_dept selected_severities : list string)
    (selected_road selected_agg : string) (df : list L) :
  let df_filtered :=
    appliquer_filtres date dep categorie catr_desc agg_desc date_range
      selected_dept selected_severities selected_road selected_agg df in
  df_filtered
  = filter (retenue date dep categorie catr_desc agg_desc date_range
              selected_dept selected_severities selected_road selected_agg) df
  ∧ (∀ r, r ∈ df_filtered ↔
       r ∈ df
       ∧ match date_range with
         | [start_date; end_date] =>
             ∃ d, date r = Some d ∧ start_date ≤ d ≤ end_date
         | _ => True
         end
       ∧ (selected_dept = [] ∨ dep r ∈ selected_dept)
       ∧ (selected_severities = [] ∨ categorie r ∈ selected_severities)
       ∧ (selected_road = "Tous" ∨ catr_desc r = Some selected_road)
       ∧ (selected_agg = "Tous" ∨ agg_desc r = Some selected_agg))
  ∧ df_filtered `sublist_of` df.
Proof.
  cbn zeta. rewrite appliquer_filtres_filter. split; [done|]. split.
  - intros r. rewrite list_elem_of_filter. unfold retenue.
    assert (match date_range with
            | [start_date; end_date] => dans_periode start_date end_date (date r)
            | _ => True
            end ↔
            match date_range with
            | [start_date; end_date] =>
                ∃ d, date r = Some d ∧ start_date ≤ d ≤ end_date
            | _ => True
            end) as Hd.
    { destruct date_range as [|s [|e [|x l]]]; try done.
      unfold dans_periode. destruct (date r) as [d|].
      - split; [intros H; by exists d | by intros (d' & [= <-] & H)].
      - split; [done | by intros (d' & [=] & _)]. }
    tauto.
  - apply sublist_filter.
Qed.

(** X23. With the widgets at their initial values (the range from the
    earliest to the latest date, every severity present in the table
    selected, no department, "Tous" twice) the dashboard shows every row
    that has a date and no row whose date is missing. *)
Theorem appliquer_filtres_defaut (min_date max_date : Z)
    (severities : list string) (df : list L) :
  (∀ r d, r ∈ df → date r = Some d → min_date ≤ d ≤ max_date) →
  (∀ r, r ∈ df → categorie r ∈ severities) →
  appliquer_filtres date dep categorie catr_desc agg_desc
    [min_date; max_date] [] severities "Tous" "Tous" df
  = filter (λ r, is_Some (date r)) df.
Proof.
  intros Hdates Hsev.
  rewrite appliquer_filtres_filter. apply filter_ssi_dans.
  intros r Hr. unfold retenue, dans_periode. split.
  - intros (Hd & _). destruct (date r); [by eexists | done].
  - intros [d Hd]. rewrite Hd. specialize (Hdates r d Hr Hd).
    specialize (Hsev r Hr). repeat split; auto; lia.
Qed.

Lemma filter_vide_ssi {A} (P : A → Prop) `{!∀ x, Decision (P x)} (l : list A) :
  filter P l = [] ↔ ∀ x, x ∈ l → ¬ P x.
Proof.
  split.
  - intros Hf x Hx HP.
    assert (x ∈ filter P l) as Hin by (by apply list_elem_of_filter).
    rewrite Hf in Hin. by apply elem_of_nil in Hin.
  - intros Hl. induction l as [|x l IH]; [done|].
    rewrite filter_cons. destruct (decide (P x)) as [HP|_].
    + exfalso. apply (Hl x); [left | done].
    + apply IH. intros y Hy. apply Hl. by right.
Qed.

End FaitsFiltres.

Lemma len_filter_tous {A} (P : A → Prop) `{!∀ x, Decision (P x)} (l : list A) :
  len (filter P l) = len l ↔ ∀ x, x ∈ l → P x.
Proof.
  unfold len. induction l as [|x l IH].
  - split; [by intros _ ? ?%elem_of_nil | done].
  - rewrite filter_cons. pose proof (length_filter P l) as Hle.
    destruct (decide (P x)) as [HP|HP]; cbn [length]; split.
    + intros Hlen y [->|Hy]%elem_of_cons; [done|]. apply IH; [lia | done].
    + intros Hl. assert (Z.of_nat (length (filter P l)) = Z.of_nat (length l))
        by (apply IH; intros y Hy; apply Hl; by right). lia.
    + lia.
    + intros Hl. destruct HP. apply Hl. left.
Qed.

(** X24. On a filtered table with at least one row (the dashboard does
    not get as far as this line with an empty one) the week-end percentage
    has a value; it lies between 0 and 100, is 0 exactly when no row is
    flagged as week-end, and is 100 exactly when every row is. *)
Theorem weekend_pct_bornes {L} (col_est_weekend : L → Z) (df_filtered : list L) :
  df_filtered ≠ [] →
  ∃ q, weekend_pct col_est_weekend df_filtered = Some q
     ∧ (0 <= q <= 100)%Q
     ∧ ((q == 0)%Q ↔ ∀ r, r ∈ df_filtered → col_est_weekend r ≠ 1)
     ∧ ((q == 100)%Q ↔ ∀ r, r ∈ df_filtered → col_est_weekend r = 1).
Proof.
  intros Hne. unfold weekend_pct.
  assert (0 < len df_filtered) as Hpos.
  { destruct df_filtered as [|r l]; [done|]. rewrite len_cons.
    pose proof (len_nonneg l). lia. }
  rewrite decide_False by lia. eexists. split; [reflexivity|].
  pose proof (len_nonneg (filter (λ r, col_est_weekend r = 1) df_filtered)) as Ha.
  pose proof (len_filter_le (λ r, col_est_weekend r = 1) df_filtered) as Hab.
  rewrite <- (filter_vide_ssi (λ r, col_est_weekend r = 1) df_filtered).
  rewrite <- (len_filter_tous (λ r, col_est_weekend r = 1) df_filtered).
  assert (filter (λ r, col_est_weekend r = 1) df_filtered = []
          ↔ len (filter (λ r, col_est_weekend r = 1) df_filtered) = 0) as ->.
  { destruct (filter _ df_filtered) as [|r l]; [done|]. rewrite len_cons.
    pose proof (len_nonneg l). split; [done | lia]. }
  generalize dependent (len (filter (λ r, col_est_weekend r = 1) df_filtered)).
  intros a Ha Hab.
  destruct (len df_filtered) as [|p|p]; try lia.
  unfold division, Qdiv, Qinv, Qmult, Qle, Qeq. cbn.
  repeat split; lia.
Qed.

Lemma weekend_pct_bornes_temoin :
  ∃ q, weekend_pct est_weekend ["Samedi"; "Lundi"; "Dimanche"; "Mardi"] = Some q
     ∧ (0 <= q <= 100)%Q.
Proof.
  destruct (weekend_pct_bornes est_weekend
              ["Samedi"; "Lundi"; "Dimanche"; "Mardi"])
    as (q & Hq & Hb & _); [discriminate|].
  exists q. split; [exact Hq | exact Hb].
Defined.

Lemma appliquer_filtres_defaut_temoin :
  length (appliquer_filtres lt_date lt_dep lt_categorie_gravite lt_catr_desc
            lt_agg_desc [739081; 739256] [] ["Grave"; "Mortel"; "Léger"]
            "Tous" "Tous" tableau_exemple) = 2%nat.
Proof.
  refine (eq_trans
            (f_equal length
               (appliquer_filtres_defaut lt_date lt_dep lt_categorie_gravite
                  lt_catr_desc lt_agg_desc 739081 739256
                  ["Grave"; "Mortel"; "Léger"] tableau_exemple _ _))
            eq_refl).
  - intros r d Hr Hd. unfold tableau_exemple in Hr.
    repeat (apply elem_of_cons in Hr as [->|Hr]; [cbn in Hd; simplify_eq; lia|]).
    by apply elem_of_nil in Hr.
  - intros r Hr. unfold tableau_exemple in Hr.
    repeat (apply elem_of_cons in Hr as [->|Hr];
            [cbn; rewrite !elem_of_cons; tauto|]).
    by apply elem_of_nil in Hr.
Defined.
